(** * PersistentCache: the on-disk embedding cache of X-AnyLabeling

    A shallow embedding of
    [anylabeling/services/auto_labeling/persistent_cache.py] and the
    properties of its five public operations.

    Modelling choices.
    - The cache directory is a flat finite map from file names to regular
      files (the class itself never creates anything else in it); a path
      is identified with its name inside [cache_dir].
    - [self.metadata] is a finite map from entry file names to time stamps.
      Time stamps are only stored and compared, so they are integers (clock
      ticks) ordered like the floats of [time.time()] and [st_mtime].
    - Python exceptions are explicit: an operation is a state transformer
      that ends in [Return v] or in [Raise], and the state reached when an
      exception is raised is kept, as in Python.
    - What the operating system may refuse (permissions, a file held open
      elsewhere, a full disk) is a table [refused] in the state.
    - [shutil.move] is [os.rename] and, when the rename raises, the copy
      that the library falls back on: [copy2] into the destination followed
      by the unlink of the source.
    - [Path.exists()] is taken on a directory that can be searched, where it
      answers and does not raise, and keys are objects whose [str()] can be
      encoded, so that every key has a digest.
    - Once the index file is open for writing, the write of the index is
      taken to complete.
    - [hashlib], [pickle], the directory enumeration order and the part of
      a file that a failing copy leaves behind belong to the platform and
      are parameters (class [Platform]).
    - Sizes are integers and [self.max_size_bytes * 0.8] is a rational. The
      source computes this product in floating point and compares it with
      an integer; for limits below 2^49 bytes that comparison has the same
      outcome as the exact one, and the statements that depend on where the
      eviction loop stops carry that bound as a hypothesis.
    - [with self.lock] makes every public operation atomic; operations are
      therefore modelled one at a time, sequentially. *)

From Stdlib Require Import ZArith QArith Qabs Lia Ascii Sorted Permutation.
From stdpp Require Import gmap strings list fin_maps.

Local Open Scope Z_scope.

(** ** Files, system calls and the state *)

Definition bytes := list Byte.byte.

Record file := File { content : bytes; st_mtime : Z }.

Definition st_size (f : file) : Z := Z.of_nat (length (content f)).

(** [SysCopy] is the copying of bytes inside [shutil.copy2], which can fail
    after the destination was opened and cut; [SysMkdir] is the [mkdir] of the
    constructor. *)
Inductive syscall :=
| SysOpenRead | SysOpenWrite | SysUnlink | SysRename | SysCopy | SysMkdir.

#[global] Instance syscall_eq_dec : EqDecision syscall.
Proof. solve_decision. Defined.

(** The mutations of the directory, in the order they happened. *)
Inductive event :=
| EvWrite (name : string)
| EvUnlink (name : string)
| EvRename (src dst : string).

Record state := State {
  files : gmap string file;            (* the contents of self.cache_dir *)
  metadata : gmap string Z;            (* self.metadata *)
  max_size_bytes : Z;                  (* self.max_size_bytes *)
  clock : Z;                           (* what time.time() returns *)
  refused : syscall → string → bool;   (* calls the system turns down *)
  trace : list event                   (* log of directory mutations *)
}.

Definition set_files (g : gmap string file → gmap string file) (s : state) : state :=
  State (g (files s)) (metadata s) (max_size_bytes s) (clock s) (refused s) (trace s).

Definition set_metadata (g : gmap string Z → gmap string Z) (s : state) : state :=
  State (files s) (g (metadata s)) (max_size_bytes s) (clock s) (refused s) (trace s).

Definition set_max_size_bytes (n : Z) (s : state) : state :=
  State (files s) (metadata s) n (clock s) (refused s) (trace s).

Definition set_clock (t : Z) (s : state) : state :=
  State (files s) (metadata s) (max_size_bytes s) t (refused s) (trace s).

Definition log (e : event) (s : state) : state :=
  State (files s) (metadata s) (max_size_bytes s) (clock s) (refused s) (trace s ++ [e]).

(** ** Computations that may raise *)

Inductive outcome (A : Type) :=
| Return (a : A)
| Raise.
Arguments Return {A} a.
Arguments Raise {A}.

Definition M (A : Type) : Type := state → state * outcome A.

Definition ret {A} (a : A) : M A := λ s, (s, Return a).

Definition raise {A} : M A := λ s, (s, Raise).

Definition bind {A B} (c : M A) (k : A → M B) : M B :=
  λ s, match c s with
       | (s', Return a) => k a s'
       | (s', Raise) => (s', Raise)
       end.

(** [try: body except Exception: handler] *)
Definition try_except {A} (body handler : M A) : M A :=
  λ s, match body s with
       | (s', Return a) => (s', Return a)
       | (s', Raise) => handler s'
       end.

Definition modify (g : state → state) : M unit := λ s, (g s, Return tt).

Definition pass : M unit := ret tt.

Declare Scope io_scope.
Delimit Scope io_scope with io.
Notation "x <- c1 ;; c2" := (bind c1 (λ x, c2))
  (at level 100, c1 at next level, right associativity) : io_scope.
Notation "c1 ;; c2" := (bind c1 (λ _, c2))
  (at level 100, right associativity) : io_scope.
Local Open Scope io_scope.

(** ** System calls on the cache directory *)

(** [Path.exists()] *)
Definition path_exists (p : string) : M bool :=
  λ s, (s, Return (match files s !! p with Some _ => true | None => false end)).

(** [open(p, 'rb')] followed by reading the whole file. *)
Definition read_bytes (p : string) : M bytes :=
  λ s, if refused s SysOpenRead p then (s, Raise)
       else match files s !! p with
            | Some f => (s, Return (content f))
            | None => (s, Raise)
            end.

(** [open(p, 'wb')]: creates the file, or truncates it. *)
Definition open_wb (p : string) : M unit :=
  λ s, if refused s SysOpenWrite p then (s, Raise)
       else (log (EvWrite p) (set_files (<[p := File [] (clock s)]>) s), Return tt).

(** Writing [data] through the handle that [open_wb p] gave. *)
Definition write_bytes (p : string) (data : bytes) : M unit :=
  modify (λ s, set_files (<[p := File data (clock s)]>) s).

(** [Path.unlink()] *)
Definition unlink (p : string) : M unit :=
  λ s, if refused s SysUnlink p then (s, Raise)
       else match files s !! p with
            | Some _ => (log (EvUnlink p) (set_files (delete p) s), Return tt)
            | None => (s, Raise)
            end.

(** [os.rename(src, dst)] inside one directory: it replaces [dst] in one
    step or fails and changes nothing. *)
Definition os_rename (src dst : string) : M unit :=
  λ s, if refused s SysRename dst then (s, Raise)
       else match files s !! src with
            | Some f => (log (EvRename src dst)
                           (set_files (λ m, <[dst := f]> (delete src m)) s), Return tt)
            | None => (s, Raise)
            end.

(** [time.time()] *)
Definition time_time : M Z := λ s, (s, Return (clock s)).

(** ** File names *)

(** Does [s] end with [suf]? *)
Fixpoint ends_with (suf s : string) : bool :=
  String.eqb s suf ||
  match s with
  | EmptyString => false
  | String _ s' => ends_with suf s'
  end.

(** The pattern of [glob("embedding_*.pkl")]. *)
Definition glob_match (name : string) : bool :=
  String.prefix "embedding_" name && ends_with ".pkl" name.

(** The part of a name before its last dot, if it has a dot. *)
Fixpoint before_last_dot (s : string) : option string :=
  match s with
  | EmptyString => None
  | String c s' =>
      match before_last_dot s' with
      | Some t => Some (String c t)
      | None => if Ascii.eqb c "."%char then Some EmptyString else None
      end
  end.

(** [PurePath.stem]: the name without its suffix. The suffix starts at the
    last dot, unless that dot is the first or the last character of the
    name, in which case the name has no suffix. *)
Definition stem (name : string) : string :=
  match before_last_dot name with
  | Some t =>
      if Nat.eqb (String.length t) 0
         || Nat.eqb (S (String.length t)) (String.length name)
      then name
      else t
  | None => name
  end.

(** [Path.with_suffix(suffix)] on a name. *)
Definition with_suffix (suffix name : string) : string :=
  stem name +:+ suffix.

(** ** The platform *)

(** What [pickle.dump] did: it wrote the whole pickle, or it raised after
    writing a part of it. *)
Inductive dump_result :=
| Dumped (data : bytes)
| DumpFailed (written : bytes).

(** What [pickle.load] gives for the index file when it does not raise: a
    dict of time stamps, or a Python object of another kind. *)
Inductive pyobject :=
| PyIndex (m : gmap string Z)
| PyOther (repr : string).

Class Platform (K V : Type) := {
  (* hashlib.md5(str(key).encode()).hexdigest() *)
  md5_hexdigest : K → string;
  (* pickle.dump and pickle.load on cached values; None: load raised *)
  pickle_dump : V → dump_result;
  pickle_load : bytes → option V;
  (* pickle.dump on the index, and pickle.load on the bytes of the index
     file; None: load raised *)
  index_dump : gmap string Z → bytes;
  index_load : bytes → option pyobject;
  (* the order in which the directory is enumerated *)
  scandir : gmap string file → list (string * file);
  (* what a copy that fails on the way has written of the bytes of its
     source *)
  copy_part : bytes → bytes
}.

(** A computation that leaves the table of refusals as it found it. *)
Definition keeps_refused {A} (c : M A) : Prop :=
  ∀ s, refused (c s).1 = refused s.

(** ** The class PersistentCache *)

(** One element of [cache_files]: [(file_path, size, access_time)]. *)
Definition entry : Type := string * Z * Z.

Definition entry_name (e : entry) : string := e.1.1.
Definition entry_size (e : entry) : Z := e.1.2.
Definition entry_time (e : entry) : Z := e.2.

(** [cache_files.sort(key=lambda x: x[2])]: a stable sort on the access
    time, here by insertion. *)
Fixpoint insert_by_time (x : entry) (l : list entry) : list entry :=
  match l with
  | [] => [x]
  | y :: l' =>
      if entry_time x <=? entry_time y then x :: l
      else y :: insert_by_time x l'
  end.

Definition sort_by_time (l : list entry) : list entry :=
  foldr insert_by_time [] l.

(** [int(x)] on a number: truncation towards zero. *)
Definition int_of_Q (x : Q) : Z := Z.quot (Qnum x) (Z.pos (Qden x)).

(** What [get_cache_info] returns ([cache_dir] is constant and left out). *)
Record cache_info := CacheInfo { info_files : nat; size_mb : Q; size_gb : Q }.

Section Cache.
Context {K V : Type} `{!Platform K V}.

Definition metadata_file : string := "metadata.pkl".

(** The cache directory itself, as the system calls name it. *)
Definition cache_dir : string := ".".

Definition get_metadata : M (gmap string Z) := λ s, (s, Return (metadata s)).

Definition get_max_size_bytes : M Z := λ s, (s, Return (max_size_bytes s)).

(** [pickle.load(f)] for an entry file and for the index file. *)
Definition load_value (p : string) : M V :=
  data <- read_bytes p ;;
  match pickle_load data with
  | Some v => ret v
  | None => raise
  end.

Definition load_index (p : string) : M pyobject :=
  data <- read_bytes p ;;
  match index_load data with
  | Some o => ret o
  | None => raise
  end.

(** The object that [pickle.load] gave is returned as it is. *)
Definition _load_metadata : M pyobject :=
  r <- try_except
         (b <- path_exists metadata_file ;;
          if b then (o <- load_index metadata_file ;; ret (Some o))
          else ret None)
         (ret None) ;;
  ret (default (PyIndex ∅) r).

(** [self.cache_dir.mkdir(parents=True, exist_ok=True)] *)
Definition mkdir (p : string) : M unit :=
  λ s, if refused s SysMkdir p then (s, Raise) else (s, Return tt).

(** [int(x)] on a float [x]: the product [max_size_gb * 1024 * 1024 * 1024]
    of a double by powers of two is exact until it leaves the range of the
    doubles, where it is infinite and [int] raises [OverflowError]. *)
Definition int_of_float (x : Q) : M Z :=
  if Qle_bool (inject_Z (2 ^ 1024)) (Qabs x) then raise else ret (int_of_Q x).

(** [__init__]; [max_size_gb] is a rational. The state of the model holds
    an index in [self.metadata]; the constructor hands back the object that
    [_load_metadata] gave, and when that object is not an index the object
    under construction is outside the model. *)
Definition __init__ (max_size_gb : Q) : M pyobject :=
  mkdir cache_dir ;;
  n <- int_of_float (max_size_gb * 1024 * 1024 * 1024) ;;
  modify (set_max_size_bytes n) ;;
  o <- _load_metadata ;;
  match o with
  | PyIndex m => modify (set_metadata (λ _, m))
  | PyOther _ => pass
  end ;;
  ret o.

Definition _save_metadata : M unit :=
  try_except
    (open_wb metadata_file ;;
     m <- get_metadata ;;
     write_bytes metadata_file (index_dump m))
    pass.

Definition _get_cache_key (key : K) : string :=
  "embedding_" +:+ md5_hexdigest key +:+ ".pkl".

Definition _get_cache_path (key : K) : string := _get_cache_key key.

(** [self.cache_dir.glob("embedding_*.pkl")] *)
Definition glob : M (list (string * file)) :=
  λ s, (s, Return (List.filter (λ nf, glob_match nf.1) (scandir (files s)))).

(** The body of the first loop of [_cleanup_old_files]. Every node of the
    directory is a regular file, so [is_file()] holds, and [stat()] reads
    the node that the enumeration gave. *)
Definition scan_step (meta : gmap string Z) (acc : list entry * Z)
    (nf : string * file) : list entry * Z :=
  let size := st_size nf.2 in
  let access_time := default (st_mtime nf.2) (meta !! nf.1) in
  (acc.1 ++ [(nf.1, size, access_time)], acc.2 + size).

(** The second loop of [_cleanup_old_files]; it returns [removed_size]. *)
Fixpoint evict (total_size : Z) (target_size : Q) (cache_files : list entry)
    (removed_size : Z) : M Z :=
  match cache_files with
  | [] => ret removed_size
  | e :: rest =>
      if Qle_bool (inject_Z (total_size - removed_size)) target_size
      then ret removed_size
      else
        r <- try_except
               (unlink (entry_name e) ;;
                modify (set_metadata (delete (entry_name e))) ;;
                ret (removed_size + entry_size e))
               (ret removed_size) ;;
        evict total_size target_size rest r
  end.

Definition _cleanup_old_files : M unit :=
  try_except
    (found <- glob ;;
     meta <- get_metadata ;;
     limit <- get_max_size_bytes ;;
     let scanned := fold_left (scan_step meta) found ([], 0) in
     let cache_files := scanned.1 in
     let total_size := scanned.2 in
     if limit <? total_size then
       evict total_size (inject_Z limit * 0.8) (sort_by_time cache_files) 0 ;;
       _save_metadata
     else pass)
    pass.

Definition get (key : K) : M (option V) :=
  let cache_path := _get_cache_path key in
  b <- path_exists cache_path ;;
  if negb b then ret None
  else
    try_except
      (value <- load_value cache_path ;;
       t <- time_time ;;
       modify (set_metadata (<[cache_path := t]>)) ;;
       _save_metadata ;;
       ret (Some value))
      (try_except
         (unlink cache_path ;;
          modify (set_metadata (delete cache_path)))
         pass ;;
       ret None).

(** [shutil.copy2(src, dst)] on regular files: it refuses to copy a file
    onto itself, opens [src] for reading and [dst] for writing, which
    creates [dst] or truncates it, copies the bytes, and gives [dst] the
    modification time of [src]. A copy that fails on the way leaves in
    [dst] the part of the bytes that it had written. *)
Definition copy2 (src dst : string) : M unit :=
  λ s, if bool_decide (src = dst) then (s, Raise)
       else if refused s SysOpenRead src then (s, Raise)
       else match files s !! src with
            | None => (s, Raise)
            | Some f =>
                if refused s SysOpenWrite dst then (s, Raise)
                else if refused s SysCopy dst
                then (log (EvWrite dst)
                        (set_files (<[dst := File (copy_part (content f)) (clock s)]>) s),
                      Raise)
                else (log (EvWrite dst) (set_files (<[dst := f]>) s), Return tt)
            end.

(** [shutil.move(src, dst)] on regular files of one directory: the rename
    and, when it raises, [copy2(src, dst)] followed by [os.unlink(src)]. *)
Definition shutil_move (src dst : string) : M unit :=
  try_except (os_rename src dst) (copy2 src dst ;; unlink src).

(** [pickle.dump(value, f)] into the file that was opened at [p]. *)
Definition dump_value (p : string) (value : V) : M unit :=
  match pickle_dump value with
  | Dumped data => write_bytes p data
  | DumpFailed written => write_bytes p written ;; raise
  end.

(** The [try] block of [put]. *)
Definition put_body (key : K) (value : V) : M unit :=
  let cache_path := _get_cache_path key in
  let temp_path := with_suffix ".tmp" cache_path in
  open_wb temp_path ;;
  dump_value temp_path value ;;
  shutil_move temp_path cache_path ;;
  t <- time_time ;;
  modify (set_metadata (<[cache_path := t]>)) ;;
  _save_metadata ;;
  _cleanup_old_files.

(** The [except] block of [put]. *)
Definition put_handler (key : K) : M unit :=
  let temp_path := with_suffix ".tmp" (_get_cache_path key) in
  b <- path_exists temp_path ;;
  if b then try_except (unlink temp_path) pass else pass.

Definition put (key : K) (value : V) : M unit :=
  try_except (put_body key value) (put_handler key).

Definition find (key : K) : M bool :=
  path_exists (_get_cache_path key).

(** The loop of [clear]: the first failing [unlink] leaves the loop. *)
Fixpoint unlink_all (l : list (string * file)) : M unit :=
  match l with
  | [] => ret tt
  | nf :: rest => unlink nf.1 ;; unlink_all rest
  end.

Definition clear : M unit :=
  try_except
    (found <- glob ;;
     unlink_all found ;;
     modify (set_metadata (λ _, ∅)) ;;
     _save_metadata)
    pass.

Definition sum_sizes (l : list (string * file)) : Z :=
  foldr (λ nf acc, st_size nf.2 + acc) 0 l.

Definition get_cache_info : M cache_info :=
  try_except
    (cache_files <- glob ;;
     let total_size := sum_sizes cache_files in
     ret (CacheInfo (length cache_files)
            (inject_Z total_size / inject_Z (1024 * 1024))
            (inject_Z total_size / inject_Z (1024 * 1024 * 1024))))
    (ret (CacheInfo 0 0 0)).

(** ** Runs of public operations *)

Inductive op :=
| OpGet (key : K)
| OpPut (key : K) (value : V)
| OpFind (key : K)
| OpClear
| OpInfo.

Definition run_op (o : op) : M unit :=
  match o with
  | OpGet key => get key ;; ret tt
  | OpPut key value => put key value
  | OpFind key => find key ;; ret tt
  | OpClear => clear
  | OpInfo => get_cache_info ;; ret tt
  end.

(** One call, made when the clock shows [t]. *)
Definition step (s : state) (c : Z * op) : state :=
  (run_op c.2 (set_clock c.1 s)).1.

Definition run (calls : list (Z * op)) (s : state) : state :=
  fold_left step calls s.

(** ** States and relations that the statements below speak of *)

(** The state that [_save_metadata] leaves: the index file rewritten from
    [self.metadata], unless the file cannot be opened for writing. *)
Definition saved (s : state) : state :=
  if refused s SysOpenWrite metadata_file then s
  else log (EvWrite metadata_file)
         (set_files (<[metadata_file := File (index_dump (metadata s)) (clock s)]>) s).

(** The state that the [except] block of [get] leaves: the file at [p]
    deleted and its record dropped, unless the unlink is refused. *)
Definition discarded (p : string) (s : state) : state :=
  if refused s SysUnlink p then s
  else set_metadata (delete p) (log (EvUnlink p) (set_files (delete p) s)).

(** The entry that the first loop of [_cleanup_old_files] makes of a node:
    its name, its size, and its recency, which is the time stamp of its
    record or, without a record, the modification time of the file. *)
Definition entry_of (meta : gmap string Z) (nf : string * file) : entry :=
  (nf.1, st_size nf.2, default (st_mtime nf.2) (meta !! nf.1)).

(** Among the entries [l], the names of those that the system lets go. *)
Definition deleted_names (ref : syscall → string → bool) (l : list entry) : list string :=
  entry_name <$> List.filter (λ e, negb (ref SysUnlink (entry_name e))) l.

(** The bytes gained by deleting them. *)
Definition freed (ref : syscall → string → bool) (l : list entry) : Z :=
  foldr (λ e acc, (if ref SysUnlink (entry_name e) then 0 else entry_size e) + acc) 0 l.

(** The state after the entries [l] were discarded one after the other. *)
Definition discard_all (l : list entry) (s : state) : state :=
  fold_left (λ s e, discarded (entry_name e) s) l s.

(** [s'] is [s] after one call: the clock has not moved, and every record
    is as before, or bears the time of the call, or is gone. *)
Definition restamps (s s' : state) : Prop :=
  clock s' = clock s ∧
  ∀ name, metadata s' !! name = metadata s !! name ∨
          metadata s' !! name = Some (clock s) ∨
          metadata s' !! name = None.

(** [s'] is [s] after files were deleted and records dropped: every file
    but the index file is as before or gone, every record is as before or
    gone. *)
Definition fades (s s' : state) : Prop :=
  (∀ name, name ≠ metadata_file →
     files s' !! name = files s !! name ∨ files s' !! name = None) ∧
  (∀ name, metadata s' !! name = metadata s !! name ∨ metadata s' !! name = None) ∧
  clock s' = clock s ∧
  refused s' = refused s ∧
  max_size_bytes s' = max_size_bytes s.

(** The state that [try: p.unlink() except: pass] leaves, guarded by
    [p.exists()] or not. *)
Definition unlinked (p : string) (s : state) : state :=
  match files s !! p with
  | Some _ => if refused s SysUnlink p then s
              else log (EvUnlink p) (set_files (delete p) s)
  | None => s
  end.

(** The state of [put] when the pickle [data] of the value has been written
    to the temporary file. *)
Definition written (key : K) (data : bytes) (s : state) : state :=
  let temp_path := with_suffix ".tmp" (_get_cache_path key) in
  set_files (<[temp_path := File data (clock s)]>)
    (log (EvWrite temp_path) (set_files (<[temp_path := File [] (clock s)]>) s)).

(** The state that [put] reaches before the eviction pass when nothing
    fails: the pickle [data] renamed onto the entry file, the record stamped
    and the index written. *)
Definition stored (key : K) (data : bytes) (s : state) : state :=
  let cache_path := _get_cache_path key in
  let temp_path := with_suffix ".tmp" cache_path in
  saved
    (set_metadata (<[cache_path := clock s]>)
       (log (EvRename temp_path cache_path)
          (log (EvWrite temp_path)
             (set_files (λ m, <[cache_path := File data (clock s)]> (delete temp_path m)) s)))).

(** The state that [put] reaches before the eviction pass when the rename
    is refused and the copy that [shutil.move] falls back on goes through:
    the files and the records of [stored], and a log that tells the copy
    and the unlink. *)
Definition stored_by_copy (key : K) (data : bytes) (s : state) : state :=
  let cache_path := _get_cache_path key in
  let temp_path := with_suffix ".tmp" cache_path in
  saved
    (set_metadata (<[cache_path := clock s]>)
       (log (EvUnlink temp_path)
          (log (EvWrite cache_path)
             (log (EvWrite temp_path)
                (set_files (λ m, <[cache_path := File data (clock s)]> (delete temp_path m)) s))))).

(** Does [shutil.move(src, dst)] go through in [s], for a source that
    exists and is not the destination? Either the rename is accepted, or
    every step of the copy and the unlink of the source are. *)
Definition move_goes_through (src dst : string) (s : state) : bool :=
  negb (refused s SysRename dst)
  || (negb (refused s SysOpenRead src) && negb (refused s SysOpenWrite dst)
      && negb (refused s SysCopy dst) && negb (refused s SysUnlink src)).

(** Every entry file of the directory has a record in [self.metadata]. *)
Definition indexed (s : state) : Prop :=
  ∀ name, glob_match name = true →
          is_Some (files s !! name) → is_Some (metadata s !! name).

(** Every record of [self.metadata] bears the name of an entry file that is
    in the directory. *)
Definition backed (s : state) : Prop :=
  ∀ name, is_Some (metadata s !! name) →
          glob_match name = true ∧ is_Some (files s !! name).

(** The bytes that the entry files of a directory take. *)
Definition entries_size (m : gmap string file) : Z :=
  sum_sizes (List.filter (λ nf, glob_match nf.1) (map_to_list m)).

(** The recency of the file [f] named [name], as the eviction pass reads
    it. *)
Definition recency (s : state) (name : string) (f : file) : Z :=
  default (st_mtime f) (metadata s !! name).

(** The index file holds the pickle of [self.metadata]. *)
Definition synced (s : state) : Prop :=
  ∃ t, files s !! metadata_file = Some (File (index_dump (metadata s)) t).

End Cache.

(** ** A small platform, to run the operations on examples *)

Module Demo.

(** A value is a payload, or [None] for an object that pickle cannot dump. *)
Definition value : Type := option bytes.

Definition dump (v : value) : dump_result :=
  match v with
  | Some payload => Dumped (Byte.x80 :: payload)
  | None => DumpFailed [Byte.x80]
  end.

Definition load (data : bytes) : option value :=
  match data with
  | Byte.x80 :: payload => Some (Some payload)
  | _ => None
  end.

(** The index is written record by record: the bytes of the name, a zero
    byte, and one byte for the time stamp (the clocks of the examples stay
    below 256). *)
Definition byte_of_Z (z : Z) : Byte.byte :=
  default Byte.x00 (Byte.of_N (Z.to_N z)).

Definition dump_record (record : string * Z) : bytes :=
  String.list_byte_of_string record.1 ++ [Byte.x00; byte_of_Z record.2].

Definition dump_index (m : gmap string Z) : bytes :=
  flat_map dump_record (map_to_list m).

(** Reading the records back; [name] holds the bytes of the name being
    read, last byte first. *)
Fixpoint parse_index (data name : bytes) (acc : gmap string Z) : option (gmap string Z) :=
  match data with
  | [] => match name with [] => Some acc | _ => None end
  | b :: rest =>
      if Byte.eqb b Byte.x00 then
        match rest with
        | z :: rest' =>
            parse_index rest' []
              (<[String.string_of_list_byte (rev name) := Z.of_N (Byte.to_N z)]> acc)
        | [] => None
        end
      else parse_index rest (b :: name) acc
  end.

(** The pickle of a list starts with a bracket: it loads, but not to an
    index. *)
Definition load_index (data : bytes) : option pyobject :=
  match data with
  | Byte.x5d :: _ => Some (PyOther "list")
  | _ => PyIndex <$> parse_index data [] ∅
  end.

#[global] Instance platform : Platform string value := {|
  md5_hexdigest := λ key, key;
  pickle_dump := dump;
  pickle_load := load;
  index_dump := dump_index;
  index_load := load_index;
  scandir := map_to_list;
  copy_part := λ _, []
|}.

Definition allow_all : syscall → string → bool := λ _ _, false.

(** Refuse one system call on one path. *)
Definition refuse (c : syscall) (p : string) : syscall → string → bool :=
  λ c' p', bool_decide (c' = c ∧ p' = p).

(** Refuse one more. *)
Definition refuse_also (c : syscall) (p : string) (ref : syscall → string → bool) :
    syscall → string → bool :=
  λ c' p', bool_decide (c' = c ∧ p' = p) || ref c' p'.

Definition garbage : bytes := [Byte.x00; Byte.x01].

Definition pickled (payload : bytes) : bytes := Byte.x80 :: payload.

(** An empty cache directory and a fresh object. *)
Definition fresh (limit : Z) (ref : syscall → string → bool) : state :=
  State ∅ ∅ limit 100 ref [].

(** The records of the keys ["a"] and ["b"]. *)
Definition records : gmap string Z :=
  <["embedding_a.pkl" := 10]> (<["embedding_b.pkl" := 20]> ∅).

(** A directory with the entry of key ["a"] damaged and the entry of key
    ["b"] sound, both recorded in the index. *)
Definition damaged (ref : syscall → string → bool) : state :=
  State (<["embedding_a.pkl" := File garbage 10]>
           (<["embedding_b.pkl" := File (pickled [Byte.x07]) 20]>
              (<["metadata.pkl" := File (dump_index records) 20]> ∅)))
        records
        1000 100 ref [].

(** A directory whose index file holds the pickle of a list, and an object
    that is being built on it. *)
Definition foreign (ref : syscall → string → bool) : state :=
  State (<["metadata.pkl" := File [Byte.x5d; Byte.x2e] 20]> ∅) ∅ 0 100 ref [].

(** A payload whose pickle takes 300 bytes. *)
Definition payload : bytes := replicate 299 Byte.x00.

(** The same directory under a limit of three bytes: the two entries, of
    two bytes each, are one byte over it. *)
Definition full (ref : syscall → string → bool) : state :=
  set_max_size_bytes 3 (damaged ref).

End Demo.

(** * Properties *)

Section Properties.
Context {K V : Type} `{!Platform K V}.

(** ** File names *)

Lemma string_app_cons (c : ascii) (a b : string) :
  String c a +:+ b = String c (a +:+ b).
Proof. reflexivity. Qed.

Lemma string_app_nil (b : string) : EmptyString +:+ b = b.
Proof. reflexivity. Qed.

Lemma ends_with_app (suf a : string) : ends_with suf (a +:+ suf) = true.
Proof.
  induction a as [|c a IH].
  - rewrite string_app_nil. destruct suf; simpl; [done|].
    by rewrite String.eqb_refl, Ascii.eqb_refl.
  - rewrite string_app_cons. simpl. rewrite IH. apply orb_true_r.
Qed.

Lemma length_app_string (a b : string) :
  String.length (a +:+ b) = (String.length a + String.length b)%nat.
Proof. induction a as [|c a IH]; [done|]. rewrite string_app_cons. cbn. by rewrite IH. Qed.

Lemma ends_with_length (suf s : string) :
  ends_with suf s = true → ∃ a, s = a +:+ suf.
Proof.
  induction s as [|c s IH]; cbn [ends_with].
  - rewrite orb_false_r. intros E%String.eqb_eq. exists EmptyString. by subst.
  - intros [E%String.eqb_eq | E]%orb_true_iff.
    + exists EmptyString. by subst.
    + destruct (IH E) as [a ->]. by exists (String c a).
Qed.

Lemma app_string_inj_r (a b x y : string) :
  String.length x = String.length y → a +:+ x = b +:+ y → x = y.
Proof.
  revert b. induction a as [|c a IH]; intros [|d b] Hlen E;
    rewrite ?string_app_cons, ?string_app_nil in E.
  - done.
  - apply (f_equal String.length) in E. simpl in E.
    rewrite length_app_string in E. lia.
  - apply (f_equal String.length) in E. simpl in E.
    rewrite length_app_string in E. lia.
  - injection E as _ E. eauto.
Qed.

Lemma glob_match_tmp (h : string) :
  glob_match ("embedding_" +:+ h +:+ ".tmp") = false.
Proof.
  unfold glob_match. apply andb_false_iff. right.
  apply not_true_is_false. intros [a E]%ends_with_length.
  change ("embedding_" +:+ h +:+ ".tmp") with (("embedding_" +:+ h) +:+ ".tmp") in E.
  by apply app_string_inj_r in E.
Qed.

Lemma glob_match_cache_key (key : K) : glob_match (_get_cache_key key) = true.
Proof.
  unfold glob_match, _get_cache_key. apply andb_true_iff. split.
  { by destruct (md5_hexdigest key +:+ ".pkl"). }
  change ("embedding_" +:+ md5_hexdigest key +:+ ".pkl")
    with (("embedding_" +:+ md5_hexdigest key) +:+ ".pkl").
  apply ends_with_app.
Qed.

Lemma before_last_dot_pkl (a : string) : before_last_dot (a +:+ ".pkl") = Some a.
Proof.
  induction a as [|c a IH]; [done|].
  rewrite string_app_cons. simpl. by rewrite IH.
Qed.

Lemma stem_pkl (c : ascii) (a : string) :
  stem (String c a +:+ ".pkl") = String c a.
Proof.
  unfold stem. rewrite before_last_dot_pkl, length_app_string.
  cbn [String.length]. rewrite orb_false_l.
  by rewrite (proj2 (Nat.eqb_neq _ _)) by lia.
Qed.

Lemma temp_path_eq (key : K) :
  with_suffix ".tmp" (_get_cache_path key)
  = "embedding_" +:+ md5_hexdigest key +:+ ".tmp".
Proof.
  unfold with_suffix, _get_cache_path, _get_cache_key.
  change ("embedding_" +:+ md5_hexdigest key +:+ ".pkl")
    with (String "e" ("mbedding_" +:+ md5_hexdigest key) +:+ ".pkl").
  by rewrite stem_pkl.
Qed.

Example with_suffix_examples :
  with_suffix ".tmp" "embedding_0f.pkl" = "embedding_0f.tmp" ∧
  with_suffix ".tmp" "a.b.pkl" = "a.b.tmp" ∧
  with_suffix ".tmp" "abc" = "abc.tmp" ∧
  with_suffix ".tmp" ".pkl" = ".pkl.tmp".
Proof. vm_compute. repeat split. Qed.

Example glob_match_examples :
  glob_match "embedding_0f.pkl" = true ∧
  glob_match "embedding_.pkl" = true ∧
  glob_match "embedding_0f.tmp" = false ∧
  glob_match "metadata.pkl" = false ∧
  glob_match "xembedding_0f.pkl" = false.
Proof. vm_compute. repeat split. Qed.

Lemma glob_match_temp_path (key : K) :
  glob_match (with_suffix ".tmp" (_get_cache_path key)) = false.
Proof. rewrite temp_path_eq. apply glob_match_tmp. Qed.

Lemma glob_match_metadata_file : glob_match metadata_file = false.
Proof. reflexivity. Qed.

Lemma cache_path_ne_metadata_file (key : K) : _get_cache_path key ≠ metadata_file.
Proof.
  intros E. pose proof (glob_match_cache_key key) as G.
  unfold _get_cache_path in E. rewrite E in G. discriminate.
Qed.

Lemma temp_path_ne_cache_path (key key' : K) :
  with_suffix ".tmp" (_get_cache_path key) ≠ _get_cache_path key'.
Proof.
  intros E. pose proof (glob_match_temp_path key) as G.
  rewrite E in G. unfold _get_cache_path in G.
  rewrite glob_match_cache_key in G. discriminate.
Qed.

Lemma temp_path_ne_metadata_file (key : K) :
  with_suffix ".tmp" (_get_cache_path key) ≠ metadata_file.
Proof. rewrite temp_path_eq. discriminate. Qed.

(** ** Running computations *)

Lemma state_eq (s1 s2 : state) :
  files s1 = files s2 → metadata s1 = metadata s2 →
  max_size_bytes s1 = max_size_bytes s2 → clock s1 = clock s2 →
  refused s1 = refused s2 → trace s1 = trace s2 →
  s1 = s2.
Proof. destruct s1, s2. simpl. by intros -> -> -> -> -> ->. Qed.

Lemma bind_return {A B} (c : M A) (k : A → M B) s s' a :
  c s = (s', Return a) → bind c k s = k a s'.
Proof. unfold bind. by intros ->. Qed.

Lemma bind_raise {A B} (c : M A) (k : A → M B) s s' :
  c s = (s', Raise) → bind c k s = (s', Raise).
Proof. unfold bind. by intros ->. Qed.

Lemma try_return {A} (body handler : M A) s s' a :
  body s = (s', Return a) → try_except body handler s = (s', Return a).
Proof. unfold try_except. by intros ->. Qed.

Lemma try_raise {A} (body handler : M A) s s' :
  body s = (s', Raise) → try_except body handler s = handler s'.
Proof. unfold try_except. by intros ->. Qed.

(** ** The index file *)

Lemma save_metadata_eq s : _save_metadata s = (saved s, Return tt).
Proof.
  unfold _save_metadata, saved, try_except, bind, open_wb, get_metadata,
    write_bytes, modify, pass, ret.
  destruct (refused s SysOpenWrite metadata_file); [done|].
  unfold log, set_files; simpl. by rewrite insert_insert_eq.
Qed.

Lemma saved_metadata s : metadata (saved s) = metadata s.
Proof. unfold saved. by destruct (refused _ _ _). Qed.

Lemma saved_files_ne s name :
  name ≠ metadata_file → files (saved s) !! name = files s !! name.
Proof.
  intros Hne. unfold saved. destruct (refused _ _ _); [done|].
  simpl. by rewrite lookup_insert_ne.
Qed.

Lemma saved_index_is_Some s :
  is_Some (files s !! metadata_file) → is_Some (files (saved s) !! metadata_file).
Proof.
  unfold saved. destruct (refused _ _ _); [done|].
  simpl. rewrite lookup_insert_eq. eauto.
Qed.

Lemma saved_refused s : refused (saved s) = refused s.
Proof. unfold saved. by destruct (refused _ _ _). Qed.

Lemma saved_clock s : clock (saved s) = clock s.
Proof. unfold saved. by destruct (refused _ _ _). Qed.

Lemma saved_max_size_bytes s : max_size_bytes (saved s) = max_size_bytes s.
Proof. unfold saved. by destruct (refused _ _ _). Qed.

(** C8. [find key] answers whether the entry file of [key] exists and
    leaves the whole state as it was: the directory (entry files and the
    index file), the records and their time stamps, and the log of writes. *)
Theorem find_is_a_pure_probe (key : K) (s : state) :
  ∃ b : bool,
    find key s = (s, Return b) ∧
    (b = true ↔ is_Some (files s !! _get_cache_path key)).
Proof.
  unfold find, path_exists.
  destruct (files s !! _get_cache_path key) as [f|] eqn:E.
  - exists true. split; [done|]. split; eauto.
  - exists false. split; [done|]. split; [done|]. by intros [? ?].
Qed.

Lemma load_metadata_cases (s : state) :
  ∃ o, _load_metadata s = (s, Return o) ∧
       (files s !! metadata_file = None → o = PyIndex ∅) ∧
       (refused s SysOpenRead metadata_file = true → o = PyIndex ∅) ∧
       (∀ f, files s !! metadata_file = Some f →
             index_load (content f) = None → o = PyIndex ∅) ∧
       (∀ f o', files s !! metadata_file = Some f →
                refused s SysOpenRead metadata_file = false →
                index_load (content f) = Some o' → o = o').
Proof.
  unfold _load_metadata, try_except, bind, path_exists, load_index,
    read_bytes, bind, ret, raise.
  destruct (files s !! metadata_file) as [f|] eqn:Ef; simpl.
  - destruct (refused s SysOpenRead metadata_file) eqn:Er; simpl.
    + exists (PyIndex ∅). repeat split; done.
    + rewrite Ef. destruct (index_load (content f)) as [o|] eqn:El; simpl.
      * exists o. repeat split; try done.
        -- intros f' [= <-]. congruence.
        -- intros f' o' [= <-] _. congruence.
      * exists (PyIndex ∅). repeat split; try done.
        intros f' o' [= <-] _. congruence.
  - exists (PyIndex ∅). repeat split; done.
Qed.

(** The constructor raises when the directory cannot be made or the limit
    is not a finite number, and at no other time. *)
Lemma init_raises (max_size_gb : Q) (s : state) :
  refused s SysMkdir cache_dir = true ∨
  Qle_bool (inject_Z (2 ^ 1024)) (Qabs (max_size_gb * 1024 * 1024 * 1024)) = true →
  __init__ max_size_gb s = (s, Raise).
Proof.
  intros Hbad. unfold __init__, bind, mkdir, int_of_float.
  destruct (refused s SysMkdir cache_dir); [done|].
  destruct Hbad as [?| ->]; done.
Qed.

Lemma init_returns (max_size_gb : Q) (s : state) :
  refused s SysMkdir cache_dir = false →
  Qle_bool (inject_Z (2 ^ 1024)) (Qabs (max_size_gb * 1024 * 1024 * 1024)) = false →
  ∃ o s', __init__ max_size_gb s = (s', Return o) ∧
          (_load_metadata s).2 = Return o ∧
          max_size_bytes s' = int_of_Q (max_size_gb * 1024 * 1024 * 1024) ∧
          files s' = files s ∧
          metadata s' = match o with PyIndex m => m | PyOther _ => metadata s end.
Proof.
  intros Hdir Hfin. unfold __init__, bind at 1, mkdir. rewrite Hdir.
  unfold bind at 1, int_of_float. rewrite Hfin. unfold ret at 1.
  unfold bind at 1, modify at 1.
  set (s1 := set_max_size_bytes _ s).
  assert (_load_metadata s1 = (s1, (_load_metadata s).2)) as Hload.
  { unfold _load_metadata, try_except, bind, path_exists, load_index,
      read_bytes, bind, ret, raise. subst s1. simpl.
    destruct (files s !! metadata_file) as [f|] eqn:Ef; simpl; [|done].
    destruct (refused s SysOpenRead metadata_file); simpl; [done|].
    rewrite !Ef. by destruct (index_load (content f)). }
  destruct (load_metadata_cases s) as (o & Ho & _).
  rewrite Ho in Hload. simpl in Hload.
  rewrite (bind_return _ _ _ _ _ Hload).
  exists o. destruct o as [m|repr]; eexists; (split; [reflexivity|]);
    rewrite Ho; done.
Qed.

(** C6. [_load_metadata] never raises and changes nothing. It gives the
    empty index when the index file is missing, when it cannot be opened
    and when its contents do not unpickle; when the contents unpickle it
    gives the object they hold, whatever that object is: nothing checks
    that it is an index. The constructor does not fail because of the
    index file: it raises exactly when the cache directory cannot be made
    or [max_size_gb * 1024**3] is not a finite number, and otherwise
    returns with what [_load_metadata] gave as [self.metadata]. *)
Theorem load_metadata_returns_what_unpickles (s : state) :
  (∃ o, _load_metadata s = (s, Return o) ∧
        (files s !! metadata_file = None → o = PyIndex ∅) ∧
        (refused s SysOpenRead metadata_file = true → o = PyIndex ∅) ∧
        (∀ f, files s !! metadata_file = Some f →
              index_load (content f) = None → o = PyIndex ∅) ∧
        (∀ f o', files s !! metadata_file = Some f →
                 refused s SysOpenRead metadata_file = false →
                 index_load (content f) = Some o' → o = o')) ∧
  (∀ max_size_gb : Q,
     (refused s SysMkdir cache_dir = true ∨
      Qle_bool (inject_Z (2 ^ 1024)) (Qabs (max_size_gb * 1024 * 1024 * 1024)) = true →
      __init__ max_size_gb s = (s, Raise)) ∧
     (refused s SysMkdir cache_dir = false →
      Qle_bool (inject_Z (2 ^ 1024)) (Qabs (max_size_gb * 1024 * 1024 * 1024)) = false →
      ∃ o s', __init__ max_size_gb s = (s', Return o) ∧
              (_load_metadata s).2 = Return o ∧
              max_size_bytes s' = int_of_Q (max_size_gb * 1024 * 1024 * 1024) ∧
              files s' = files s ∧
              metadata s' = match o with PyIndex m => m | PyOther _ => metadata s end)).
Proof.
  split; [apply load_metadata_cases|].
  intros g. split; [apply init_raises|apply init_returns].
Qed.

(** ** [get] *)

Lemma get_missing (key : K) s :
  files s !! _get_cache_path key = None → get key s = (s, Return None).
Proof. intros E. unfold get, bind, path_exists. by rewrite E. Qed.

(** The entry file cannot be opened or does not unpickle: the [except]
    block runs. *)
Lemma get_unreadable (key : K) s f :
  files s !! _get_cache_path key = Some f →
  refused s SysOpenRead (_get_cache_path key) = true ∨ pickle_load (content f) = None →
  get key s = (discarded (_get_cache_path key) s, Return None).
Proof.
  intros E Hbad.
  unfold get, discarded, bind, path_exists. rewrite E. simpl.
  assert (load_value (_get_cache_path key) s = (s, Raise)) as Hl.
  { unfold load_value, bind, read_bytes, raise.
    destruct (refused s SysOpenRead _); [done|]. rewrite E.
    destruct Hbad as [?| ->]; done. }
  rewrite (try_raise _ _ s s) by (by apply bind_raise).
  unfold bind, try_except, unlink, modify, pass, ret.
  destruct (refused s SysUnlink _); [done|]. by rewrite E.
Qed.

Lemma get_hit (key : K) s f v :
  files s !! _get_cache_path key = Some f →
  refused s SysOpenRead (_get_cache_path key) = false →
  pickle_load (content f) = Some v →
  get key s
  = (saved (set_metadata (<[_get_cache_path key := clock s]>) s), Return (Some v)).
Proof.
  intros E Hr Hl.
  unfold get, bind, path_exists. rewrite E. simpl.
  unfold try_except, bind, load_value, bind, read_bytes, time_time, modify, ret.
  rewrite Hr, E, Hl. by rewrite save_metadata_eq.
Qed.


(** C3. A [get] that finds the entry file but cannot unpickle it returns
    [None] without raising, deletes the entry file and drops its record
    from [self.metadata]; it does not write the index file: the file on
    disk is the one from before the call, and the only mutation logged is
    the unlink. *)
Theorem get_corrupt_leaves_index_file (key : K) (s : state) (f : file) :
  files s !! _get_cache_path key = Some f →
  pickle_load (content f) = None →
  refused s SysUnlink (_get_cache_path key) = false →
  ∃ s', get key s = (s', Return None) ∧
        files s' !! _get_cache_path key = None ∧
        metadata s' = delete (_get_cache_path key) (metadata s) ∧
        files s' !! metadata_file = files s !! metadata_file ∧
        trace s' = trace s ++ [EvUnlink (_get_cache_path key)].
Proof.
  intros E Hl Hu. eexists. split; [apply (get_unreadable key s f); auto|].
  unfold discarded. rewrite Hu. simpl.
  rewrite lookup_delete_eq, lookup_delete_ne; [done|].
  apply cache_path_ne_metadata_file.
Qed.

(** When the deletion of the damaged entry is refused, [get] still answers
    [None], changes nothing, and [find] goes on answering true. *)
Lemma get_corrupt_deletion_refused (key : K) (s : state) (f : file) :
  files s !! _get_cache_path key = Some f →
  pickle_load (content f) = None →
  refused s SysUnlink (_get_cache_path key) = true →
  get key s = (s, Return None) ∧ find key s = (s, Return true).
Proof.
  intros E Hl Hu. split.
  - rewrite (get_unreadable key s f) by auto. unfold discarded. by rewrite Hu.
  - unfold find, path_exists. by rewrite E.
Qed.

(** C9. When the entry file of [key] exists and its contents do not
    unpickle, [find] answers true and [get] answers [None]. What [find]
    answers after that [get] depends on the deletion that [get] attempts:
    when the system lets the file go, [find] answers false; when the
    system refuses, [get] swallows the refusal, nothing has changed and
    [find] still answers true. *)
Theorem find_true_does_not_promise_a_value (key : K) (s : state) (f : file) :
  files s !! _get_cache_path key = Some f →
  pickle_load (content f) = None →
  find key s = (s, Return true) ∧
  ∃ s', get key s = (s', Return None) ∧
        (refused s SysUnlink (_get_cache_path key) = false →
         find key s' = (s', Return false)) ∧
        (refused s SysUnlink (_get_cache_path key) = true →
         s' = s ∧ find key s' = (s', Return true)).
Proof.
  intros E Hl. split.
  { unfold find, path_exists. by rewrite E. }
  eexists. split; [apply (get_unreadable key s f); auto|].
  unfold find, path_exists, discarded. split; intros Hu; rewrite Hu; simpl.
  - by rewrite lookup_delete_eq.
  - by rewrite E.
Qed.

(** ** What an eviction pass may change *)

Lemma fades_refl s : fades s s.
Proof. unfold fades. naive_solver. Qed.

Lemma fades_trans s1 s2 s3 : fades s1 s2 → fades s2 s3 → fades s1 s3.
Proof.
  intros (Hf1 & Hm1 & Hc1 & Hr1 & Hx1) (Hf2 & Hm2 & Hc2 & Hr2 & Hx2).
  unfold fades. repeat split; try congruence.
  - intros name Hne. destruct (Hf2 name Hne) as [->| ->]; auto.
  - intros name. destruct (Hm2 name) as [->| ->]; auto.
Qed.

Lemma fades_discarded p s : p ≠ metadata_file → fades s (discarded p s).
Proof.
  intros Hp. unfold discarded. destruct (refused s SysUnlink p); [apply fades_refl|].
  unfold fades; simpl. repeat split; try done.
  - intros name _. destruct (decide (name = p)) as [->|Hne].
    + right. apply lookup_delete_eq.
    + left. by apply lookup_delete_ne.
  - intros name. destruct (decide (name = p)) as [->|Hne].
    + right. apply lookup_delete_eq.
    + left. by apply lookup_delete_ne.
Qed.

Lemma fades_saved s : fades s (saved s).
Proof.
  unfold fades. rewrite saved_metadata, saved_clock, saved_refused,
    saved_max_size_bytes. repeat split; try done; [|by left].
  intros name Hne. left. by apply saved_files_ne.
Qed.

(** One round of the eviction loop on the entry [e]. *)
Lemma evict_round (e : entry) (removed_size : Z) s :
  ∃ r, try_except
         (unlink (entry_name e) ;;
          modify (set_metadata (delete (entry_name e))) ;;
          ret (removed_size + entry_size e))
         (ret removed_size) s
       = (match files s !! entry_name e with
          | Some _ => discarded (entry_name e) s
          | None => s
          end, Return r).
Proof.
  unfold try_except, bind, unlink, modify, ret, discarded.
  destruct (refused s SysUnlink (entry_name e)).
  - destruct (files s !! entry_name e); eauto.
  - destruct (files s !! entry_name e); eauto.
Qed.

Lemma evict_fades total_size target_size (l : list entry) :
  Forall (λ e, entry_name e ≠ metadata_file) l →
  ∀ removed_size s,
    ∃ s' r, evict total_size target_size l removed_size s = (s', Return r) ∧
            fades s s'.
Proof.
  induction 1 as [|e l He _ IH]; intros removed_size s; simpl.
  { exists s, removed_size. split; [done|apply fades_refl]. }
  destruct (Qle_bool _ _).
  { exists s, removed_size. split; [done|apply fades_refl]. }
  destruct (evict_round e removed_size s) as [r Hr].
  rewrite (bind_return _ _ _ _ _ Hr).
  destruct (IH r (match files s !! entry_name e with
                  | Some _ => discarded (entry_name e) s
                  | None => s end)) as (s' & r' & -> & Hf).
  exists s', r'. split; [done|].
  eapply fades_trans; [|exact Hf].
  destruct (files s !! entry_name e); [by apply fades_discarded|apply fades_refl].
Qed.

Lemma scan_fold (meta : gmap string Z) (l : list (string * file)) acc :
  fold_left (scan_step meta) l acc
  = (acc.1 ++ ((λ nf, (nf.1, st_size nf.2, default (st_mtime nf.2) (meta !! nf.1))) <$> l),
     acc.2 + sum_sizes l).
Proof.
  revert acc. induction l as [|nf l IH]; intros [cf t]; simpl.
  - by rewrite app_nil_r, Z.add_0_r.
  - rewrite IH. simpl. rewrite <- app_assoc. simpl. f_equal. lia.
Qed.

Lemma insert_by_time_perm x l : insert_by_time x l ≡ₚ x :: l.
Proof.
  induction l as [|y l IH]; simpl; [done|].
  destruct (_ <=? _); [done|]. rewrite IH. apply Permutation_swap.
Qed.

Lemma sort_by_time_perm l : sort_by_time l ≡ₚ l.
Proof.
  induction l as [|x l IH]; simpl; [done|].
  rewrite insert_by_time_perm. by rewrite IH.
Qed.

Lemma glob_names_ne_metadata_file (found : list (string * file)) :
  Forall (λ nf, nf.1 ≠ metadata_file)
    (List.filter (λ nf, glob_match nf.1) found).
Proof.
  apply Forall_forall. intros nf [_ Hg]%list_elem_of_In%filter_In Heq.
  rewrite Heq in Hg. discriminate.
Qed.

Lemma cleanup_fades s :
  ∃ s', _cleanup_old_files s = (s', Return tt) ∧ fades s s'.
Proof.
  unfold _cleanup_old_files, glob, get_metadata, get_max_size_bytes.
  unfold try_except, bind at 1 2 3.
  rewrite scan_fold. simpl.
  destruct (max_size_bytes s <? _).
  2: { exists s. split; [done|apply fades_refl]. }
  set (l := sort_by_time _).
  assert (Forall (λ e, entry_name e ≠ metadata_file) l) as Hl.
  { subst l. rewrite sort_by_time_perm. apply Forall_fmap.
    eapply Forall_impl; [apply glob_names_ne_metadata_file|]. by intros []. }
  destruct (evict_fades (sum_sizes (List.filter (λ nf, glob_match nf.1) (scandir (files s))))
              (inject_Z (max_size_bytes s) * 0.8) l Hl 0 s) as (s1 & r & He & Hf).
  simpl in He.
  rewrite (bind_return _ _ _ _ _ He). rewrite save_metadata_eq.
  exists (saved s1). split; [done|].
  eapply fades_trans; [exact Hf|apply fades_saved].
Qed.

(** ** [put] *)

Lemma put_handler_eq (key : K) s :
  put_handler key s
  = (unlinked (with_suffix ".tmp" (_get_cache_path key)) s, Return tt).
Proof.
  unfold put_handler, unlinked, bind, path_exists, try_except, unlink, pass, ret.
  destruct (files s !! _) eqn:E; simpl; [|done].
  destruct (refused s SysUnlink _); [done|]. by rewrite E.
Qed.

(** [shutil.move] of a file that exists onto another name: the rename, or
    else the copy, which may stop before it opens the destination, stop
    after it has cut the destination short, or go through and be followed
    by the unlink of the source. *)
Lemma shutil_move_cases (src dst : string) (f : file) (s : state) :
  src ≠ dst →
  files s !! src = Some f →
  shutil_move src dst s
  = if refused s SysRename dst then
      if refused s SysOpenRead src || refused s SysOpenWrite dst then (s, Raise)
      else if refused s SysCopy dst then
        (log (EvWrite dst)
           (set_files (<[dst := File (copy_part (content f)) (clock s)]>) s), Raise)
      else if refused s SysUnlink src then
        (log (EvWrite dst) (set_files (<[dst := f]>) s), Raise)
      else
        (log (EvUnlink src)
           (set_files (delete src) (log (EvWrite dst) (set_files (<[dst := f]>) s))),
         Return tt)
    else
      (log (EvRename src dst) (set_files (λ m, <[dst := f]> (delete src m)) s),
       Return tt).
Proof.
  intros Hne Hf. unfold shutil_move, try_except, os_rename.
  destruct (refused s SysRename dst); [|by rewrite Hf].
  unfold bind, copy2, unlink.
  rewrite bool_decide_eq_false_2 by done.
  destruct (refused s SysOpenRead src); [done|]. rewrite Hf.
  destruct (refused s SysOpenWrite dst); [done|]. simpl.
  destruct (refused s SysCopy dst); [done|]. simpl.
  destruct (refused s SysUnlink src); [done|].
  by rewrite lookup_insert_ne, Hf by done.
Qed.

(** [put], step by step. *)
Lemma put_eq (key : K) (value : V) (s : state) :
  let cache_path := _get_cache_path key in
  let temp_path := with_suffix ".tmp" cache_path in
  put key value s
  = if refused s SysOpenWrite temp_path then (unlinked temp_path s, Return tt)
    else match pickle_dump value with
         | DumpFailed part => (unlinked temp_path (written key part s), Return tt)
         | Dumped data =>
             match shutil_move temp_path cache_path (written key data s) with
             | (s3, Return _) =>
                 _cleanup_old_files
                   (saved (set_metadata (<[cache_path := clock s]>) s3))
             | (s3, Raise) => (unlinked temp_path s3, Return tt)
             end
         end.
Proof.
  intros cache_path temp_path.
  unfold put, put_body. fold cache_path. fold temp_path.
  unfold try_except at 1.
  unfold bind at 1, open_wb.
  destruct (refused s SysOpenWrite temp_path) eqn:Ho.
  { apply put_handler_eq. }
  unfold bind at 1, dump_value.
  destruct (pickle_dump value) as [data|part] eqn:Hd.
  - unfold write_bytes, modify. unfold bind at 1.
    match goal with |- context [shutil_move temp_path cache_path ?st] =>
      change st with (written key data s) end.
    destruct (shutil_move temp_path cache_path (written key data s))
      as [s3 [[]|]] eqn:Hmove.
    + unfold bind at 1, time_time. unfold bind at 1, modify.
      rewrite (bind_return _ _ _ _ _ (save_metadata_eq _)).
      assert (clock s3 = clock s) as ->.
      { unfold shutil_move, try_except, os_rename, bind, copy2, unlink in Hmove.
        repeat match type of Hmove with
               | context [if ?b then _ else _] => destruct b
               | context [match files ?st !! ?q with _ => _ end] =>
                   destruct (files st !! q)
               end; simplify_eq; done. }
      by destruct (cleanup_fades (saved (set_metadata (<[cache_path := clock s]>) s3)))
        as (s' & -> & _).
    + apply put_handler_eq.
  - unfold bind, write_bytes, modify, raise.
    exact (put_handler_eq key (written key part s)).
Qed.

Lemma written_files_ne (key : K) (data : bytes) s name :
  name ≠ with_suffix ".tmp" (_get_cache_path key) →
  files (written key data s) !! name = files s !! name.
Proof. intros Hne. unfold written. simpl. by rewrite !lookup_insert_ne. Qed.

Lemma written_temp (key : K) (data : bytes) s :
  files (written key data s) !! with_suffix ".tmp" (_get_cache_path key)
  = Some (File data (clock s)).
Proof. unfold written. simpl. apply lookup_insert_eq. Qed.

Lemma unlinked_files_ne p s name :
  name ≠ p → files (unlinked p s) !! name = files s !! name.
Proof.
  intros Hne. unfold unlinked. destruct (files s !! p); [|done].
  destruct (refused s SysUnlink p); [done|]. simpl. by rewrite lookup_delete_ne.
Qed.

Lemma unlinked_gone p s :
  refused s SysUnlink p = false → files (unlinked p s) !! p = None.
Proof.
  intros Hu. unfold unlinked. destruct (files s !! p) eqn:E; [|done].
  rewrite Hu. simpl. apply lookup_delete_eq.
Qed.

Lemma unlinked_kept p s :
  refused s SysUnlink p = true → unlinked p s = s.
Proof. intros Hu. unfold unlinked. rewrite Hu. by destruct (files s !! p). Qed.

Lemma unlinked_frame p s :
  metadata (unlinked p s) = metadata s ∧ clock (unlinked p s) = clock s ∧
  refused (unlinked p s) = refused s ∧
  max_size_bytes (unlinked p s) = max_size_bytes s.
Proof.
  unfold unlinked. destruct (files s !! p); [|done].
  by destruct (refused s SysUnlink p).
Qed.

(** A [put] that fails before anything is moved: the temporary file cannot
    be opened, the value cannot be pickled, or the rename is refused and
    the copy cannot open one of its two files. *)
Lemma put_failure (key : K) (value : V) (s : state) :
  let cache_path := _get_cache_path key in
  let temp_path := with_suffix ".tmp" cache_path in
  refused s SysOpenWrite temp_path = true ∨
  (∃ part, pickle_dump value = DumpFailed part) ∨
  (refused s SysRename cache_path = true ∧
   (refused s SysOpenRead temp_path = true ∨
    refused s SysOpenWrite cache_path = true)) →
  ∃ s', put key value s = (s', Return tt) ∧
        metadata s' = metadata s ∧
        clock s' = clock s ∧
        (∀ name, name ≠ temp_path → files s' !! name = files s !! name) ∧
        (refused s SysUnlink temp_path = false → files s' !! temp_path = None).
Proof.
  intros cache_path temp_path Hfail.
  pose proof (put_eq key value s) as Hput. simpl in Hput.
  fold cache_path temp_path in Hput. rewrite Hput. clear Hput.
  assert (∀ part, ∃ s',
            (unlinked temp_path (written key part s), Return tt) = (s', Return tt) ∧
            metadata s' = metadata s ∧ clock s' = clock s ∧
            (∀ name, name ≠ temp_path → files s' !! name = files s !! name) ∧
            (refused s SysUnlink temp_path = false → files s' !! temp_path = None))
    as Hquiet.
  { intros part. eexists. split; [done|].
    destruct (unlinked_frame temp_path (written key part s)) as (-> & -> & _).
    repeat split; try done.
    - intros name Hne. by rewrite unlinked_files_ne, written_files_ne.
    - intros Hu. by apply unlinked_gone. }
  destruct (refused s SysOpenWrite temp_path) eqn:Ho.
  { eexists. split; [done|].
    destruct (unlinked_frame temp_path s) as (-> & -> & _).
    repeat split; try done.
    - intros name Hne. by rewrite unlinked_files_ne.
    - intros Hu. by apply unlinked_gone. }
  destruct (pickle_dump value) as [data|part] eqn:Hd; [|apply Hquiet].
  destruct Hfail as [?|[[? ?]|[Hm Hcopy]]]; [done..|].
  rewrite (shutil_move_cases _ _ (File data (clock s))).
  2: { apply temp_path_ne_cache_path. }
  2: { apply written_temp. }
  change (refused (written key data s)) with (refused s).
  rewrite Hm.
  assert (refused s SysOpenRead temp_path || refused s SysOpenWrite cache_path = true)
    as -> by (destruct Hcopy as [-> | ->]; [done|apply orb_true_r]).
  apply Hquiet.
Qed.

(** A [put] whose rename is refused and whose copy starts and then fails,
    or cannot be followed by the unlink of the temporary file: [put] has
    failed, yet the entry file was written in place. *)
Lemma put_broken_move (key : K) (value : V) (data : bytes) (s : state) :
  let cache_path := _get_cache_path key in
  let temp_path := with_suffix ".tmp" cache_path in
  refused s SysOpenWrite temp_path = false →
  pickle_dump value = Dumped data →
  refused s SysRename cache_path = true →
  refused s SysOpenRead temp_path = false →
  refused s SysOpenWrite cache_path = false →
  refused s SysCopy cache_path = true ∨ refused s SysUnlink temp_path = true →
  ∃ s', put key value s = (s', Return tt) ∧
        metadata s' = metadata s ∧
        clock s' = clock s ∧
        (∀ name, name ≠ temp_path → name ≠ cache_path →
                 files s' !! name = files s !! name) ∧
        files s' !! cache_path
        = Some (File (if refused s SysCopy cache_path then copy_part data else data) (clock s)) ∧
        (refused s SysUnlink temp_path = false → files s' !! temp_path = None) ∧
        (refused s SysUnlink temp_path = true →
         files s' !! temp_path = Some (File data (clock s))).
Proof.
  intros cache_path temp_path Ho Hd Hm Hread Hwrite Hbroken.
  pose proof (put_eq key value s) as Hput. simpl in Hput.
  fold cache_path temp_path in Hput. rewrite Hput, Ho, Hd. clear Hput.
  rewrite (shutil_move_cases _ _ (File data (clock s))).
  2: { apply temp_path_ne_cache_path. }
  2: { apply written_temp. }
  change (refused (written key data s)) with (refused s).
  change (clock (written key data s)) with (clock s).
  rewrite Hm, Hread, Hwrite. simpl.
  assert (cache_path ≠ temp_path) as Hne.
  { intros E. symmetry in E. by apply temp_path_ne_cache_path in E. }
  destruct (refused s SysCopy cache_path) eqn:Hcopy.
  - eexists. split; [done|].
    match goal with |- context [unlinked temp_path ?st] =>
      destruct (unlinked_frame temp_path st) as (-> & -> & _);
      pose proof (unlinked_gone temp_path st) as Hgone;
      pose proof (unlinked_kept temp_path st) as Hkept
    end.
    simpl in Hgone, Hkept. repeat split; try done.
    + intros name Ht Hp. rewrite unlinked_files_ne by done. simpl.
      rewrite lookup_insert_ne by done. by apply written_files_ne.
    + rewrite unlinked_files_ne by done. simpl. apply lookup_insert_eq.
    + intros Hu. rewrite Hkept by done. simpl.
      rewrite lookup_insert_ne by done. apply written_temp.
  - destruct Hbroken as [?|Hu]; [done|]. rewrite Hu.
    eexists. split; [done|].
    match goal with |- context [unlinked temp_path ?st] =>
      rewrite (unlinked_kept temp_path st) by done
    end.
    simpl. repeat split; try done.
    + intros name Ht Hp. rewrite lookup_insert_ne by done. by apply written_files_ne.
    + apply lookup_insert_eq.
    + intros _. rewrite lookup_insert_ne by done. apply written_temp.
Qed.

(** A [put] whose three fallible steps all go through stores the pickle
    under the entry name, stamps the record, writes the index and then runs
    the eviction pass. *)
Lemma put_stores (key : K) (value : V) (data : bytes) s :
  refused s SysOpenWrite (with_suffix ".tmp" (_get_cache_path key)) = false →
  pickle_dump value = Dumped data →
  refused s SysRename (_get_cache_path key) = false →
  put key value s = _cleanup_old_files (stored key data s).
Proof.
  intros Ho Hd Hm.
  pose proof (put_eq key value s) as Hput. simpl in Hput.
  rewrite Hput, Ho, Hd. clear Hput.
  rewrite (shutil_move_cases _ _ (File data (clock s))).
  2: { apply temp_path_ne_cache_path. }
  2: { apply written_temp. }
  change (refused (written key data s)) with (refused s). rewrite Hm.
  f_equal. unfold stored, written.
  generalize (with_suffix ".tmp" (_get_cache_path key)) as temp_path.
  generalize (_get_cache_path key) as cache_path.
  intros cache_path temp_path. do 2 f_equal.
  apply state_eq; simpl; try done.
  by rewrite insert_insert_eq, delete_insert_eq.
Qed.

(** The same when the rename is refused and the copy and the unlink that
    follow it go through. *)
Lemma put_stores_by_copy (key : K) (value : V) (data : bytes) s :
  let cache_path := _get_cache_path key in
  let temp_path := with_suffix ".tmp" cache_path in
  refused s SysOpenWrite temp_path = false →
  pickle_dump value = Dumped data →
  refused s SysRename cache_path = true →
  refused s SysOpenRead temp_path = false →
  refused s SysOpenWrite cache_path = false →
  refused s SysCopy cache_path = false →
  refused s SysUnlink temp_path = false →
  put key value s = _cleanup_old_files (stored_by_copy key data s).
Proof.
  intros cache_path temp_path Ho Hd Hm Hread Hwrite Hcopy Hu.
  pose proof (put_eq key value s) as Hput. simpl in Hput.
  fold cache_path temp_path in Hput. rewrite Hput, Ho, Hd. clear Hput.
  rewrite (shutil_move_cases _ _ (File data (clock s))).
  2: { apply temp_path_ne_cache_path. }
  2: { apply written_temp. }
  change (refused (written key data s)) with (refused s).
  rewrite Hm, Hread, Hwrite, Hcopy, Hu. simpl.
  assert (temp_path ≠ cache_path) as Hne by apply temp_path_ne_cache_path.
  f_equal. unfold stored_by_copy, written. fold cache_path temp_path.
  clearbody temp_path cache_path. do 2 f_equal.
  apply state_eq; simpl; try done.
  rewrite (delete_insert_ne _ temp_path cache_path) by done.
  by rewrite insert_insert_eq, delete_insert_eq.
Qed.

Lemma stored_by_copy_same (key : K) (data : bytes) s :
  files (stored_by_copy key data s) = files (stored key data s) ∧
  metadata (stored_by_copy key data s) = metadata (stored key data s) ∧
  clock (stored_by_copy key data s) = clock (stored key data s) ∧
  refused (stored_by_copy key data s) = refused (stored key data s) ∧
  max_size_bytes (stored_by_copy key data s) = max_size_bytes (stored key data s).
Proof.
  unfold stored_by_copy, stored, saved. simpl.
  by destruct (refused s SysOpenWrite metadata_file).
Qed.

(** Every [put] is of one of three kinds: it fails and leaves every file
    but the temporary one alone; it fails after the copy has written the
    entry file in place, which only happens when the rename is refused; or
    it goes through, and runs the eviction pass on a state whose files and
    records are those of [stored]. *)
Lemma put_cases (key : K) (value : V) s :
  let cache_path := _get_cache_path key in
  let temp_path := with_suffix ".tmp" cache_path in
  (∃ s', put key value s = (s', Return tt) ∧
         metadata s' = metadata s ∧ clock s' = clock s ∧
         (∀ name, name ≠ temp_path → files s' !! name = files s !! name) ∧
         (refused s SysUnlink temp_path = false → files s' !! temp_path = None)) ∨
  (refused s SysRename cache_path = true ∧
   ∃ s' data, pickle_dump value = Dumped data ∧
         put key value s = (s', Return tt) ∧
         metadata s' = metadata s ∧ clock s' = clock s ∧
         (∀ name, name ≠ temp_path → name ≠ cache_path →
                  files s' !! name = files s !! name) ∧
         files s' !! cache_path
         = Some (File (if refused s SysCopy cache_path then copy_part data else data) (clock s)) ∧
         (refused s SysUnlink temp_path = false → files s' !! temp_path = None)) ∨
  (∃ data st, pickle_dump value = Dumped data ∧
         put key value s = _cleanup_old_files st ∧
         files st = files (stored key data s) ∧
         metadata st = metadata (stored key data s) ∧
         clock st = clock (stored key data s) ∧
         refused st = refused (stored key data s) ∧
         max_size_bytes st = max_size_bytes (stored key data s)).
Proof.
  intros cache_path temp_path.
  destruct (refused s SysOpenWrite temp_path) eqn:Ho.
  { left. apply put_failure. by left. }
  destruct (pickle_dump value) as [data|part] eqn:Hd.
  2: { left. apply put_failure. right. left. eauto. }
  destruct (refused s SysRename cache_path) eqn:Hm.
  2: { right. right. exists data, (stored key data s).
       split; [done|]. split; [by apply put_stores|done]. }
  destruct (refused s SysOpenRead temp_path) eqn:Hread.
  { left. apply put_failure. right. right. auto. }
  destruct (refused s SysOpenWrite cache_path) eqn:Hwrite.
  { left. apply put_failure. right. right. auto. }
  destruct (refused s SysCopy cache_path) eqn:Hcopy.
  { right. left. split; [done|].
    destruct (put_broken_move key value data s) as (s' & ? & ? & ? & ? & Hp & ? & _);
      try done; [by left|].
    fold cache_path in Hp. rewrite Hcopy in Hp.
    by exists s', data. }
  destruct (refused s SysUnlink temp_path) eqn:Hu.
  { right. left. split; [done|].
    destruct (put_broken_move key value data s) as (s' & ? & ? & ? & ? & Hp & ? & _);
      try done; [by right|].
    fold cache_path in Hp. rewrite Hcopy in Hp.
    by exists s', data. }
  right. right. exists data, (stored_by_copy key data s).
  split; [done|]. split; [by apply put_stores_by_copy|].
  apply stored_by_copy_same.
Qed.


(** C4, on the code. [put] moves the temporary file with [shutil.move],
    which does not stop when the rename is refused: it copies the temporary
    file onto the entry file, in place. When that copy fails on the way, or
    the temporary file cannot be deleted after it, the [put] has failed
    (the record is not stamped, the index file is not written) and returns
    normally, but the entry file is not the one that was stored before:
    it holds a part of the new pickle, or the new pickle. *)
Theorem put_rewrites_the_entry_when_the_rename_is_refused
    (key : K) (value : V) (data : bytes) (s : state) :
  let cache_path := _get_cache_path key in
  let temp_path := with_suffix ".tmp" cache_path in
  refused s SysOpenWrite temp_path = false →
  pickle_dump value = Dumped data →
  refused s SysRename cache_path = true →
  refused s SysOpenRead temp_path = false →
  refused s SysOpenWrite cache_path = false →
  refused s SysCopy cache_path = true ∨ refused s SysUnlink temp_path = true →
  ∃ s', put key value s = (s', Return tt) ∧
        metadata s' = metadata s ∧
        files s' !! metadata_file = files s !! metadata_file ∧
        files s' !! cache_path
        = Some (File (if refused s SysCopy cache_path then copy_part data else data) (clock s)) ∧
        (refused s SysUnlink temp_path = false → files s' !! temp_path = None) ∧
        (refused s SysUnlink temp_path = true →
         files s' !! temp_path = Some (File data (clock s))).
Proof.
  intros cache_path temp_path Ho Hd Hm Hread Hwrite Hbroken.
  destruct (put_broken_move key value data s Ho Hd Hm Hread Hwrite Hbroken)
    as (s' & Hput & Hmeta & _ & Hframe & Hentry & Hgone & Hkept).
  exists s'. repeat split; try done.
  apply Hframe.
  - intros E. symmetry in E. by apply temp_path_ne_metadata_file in E.
  - intros E. symmetry in E. by apply cache_path_ne_metadata_file in E.
Qed.


(** ** [clear] *)

Lemma unlink_all_frame (l : list (string * file)) :
  ∀ s, ∃ s' o,
    unlink_all l s = (s', o) ∧
    metadata s' = metadata s ∧
    clock s' = clock s ∧
    refused s' = refused s ∧
    (∃ names, trace s' = trace s ++ (EvUnlink <$> names)) ∧
    (∀ name, files s' !! name = files s !! name ∨
             (name ∈ l.*1 ∧ refused s SysUnlink name = false ∧
              files s' !! name = None)).
Proof.
  induction l as [|nf l IH]; intros s; simpl.
  { exists s, (Return tt). repeat split; try done.
    - exists []. simpl. by rewrite app_nil_r.
    - by left. }
  unfold bind, unlink.
  destruct (refused s SysUnlink nf.1) eqn:Hu.
  { exists s, Raise. repeat split; try done.
    - exists []. simpl. by rewrite app_nil_r.
    - by left. }
  destruct (files s !! nf.1) as [f|] eqn:Ef.
  2: { exists s, Raise. repeat split; try done.
       - exists []. simpl. by rewrite app_nil_r.
       - by left. }
  destruct (IH (log (EvUnlink nf.1) (set_files (delete nf.1) s)))
    as (s' & o & -> & Hm & Hc & Hr & [names Ht] & Hf).
  exists s', o. repeat split; try done.
  - exists (nf.1 :: names). rewrite Ht. simpl. by rewrite <- app_assoc.
  - intros name. destruct (Hf name) as [E|(Hin & Hn & E)].
    + simpl in E. destruct (decide (name = nf.1)) as [->|Hne].
      * right. split; [apply list_elem_of_here|].
        split; [done|]. by rewrite E, lookup_delete_eq.
      * left. by rewrite E, lookup_delete_ne.
    + right. split; [by apply list_elem_of_further|done].
Qed.

Lemma unlink_all_refused (l : list (string * file)) (name : string) :
  name ∈ l.*1 →
  ∀ s, refused s SysUnlink name = true → (unlink_all l s).2 = Raise.
Proof.
  induction l as [|nf l IH]; intros Hin s Hu; simpl in *.
  { by apply elem_of_nil in Hin. }
  unfold bind, unlink.
  destruct (decide (name = nf.1)) as [->|Hne].
  { by rewrite Hu. }
  destruct (refused s SysUnlink nf.1); [done|].
  destruct (files s !! nf.1); [|done].
  apply IH; [|done].
  apply elem_of_cons in Hin as [?|?]; done.
Qed.

Lemma glob_names_match (found : list (string * file)) (name : string) :
  name ∈ (List.filter (λ nf, glob_match nf.1) found).*1 → glob_match name = true.
Proof.
  intros [nf [-> Hin]]%list_elem_of_fmap.
  by apply list_elem_of_In, filter_In in Hin as [_ ?].
Qed.


(** C5, on the code. When the system refuses to delete one entry file,
    [clear] returns normally but has given up at that file: the records of
    [self.metadata] are all still there, the index file on disk is the one
    from before the call, and nothing was written. *)
Theorem clear_gives_up_at_first_failure (s : state) (name : string) (f : file) :
  (∀ m : gmap string file, scandir m ≡ₚ map_to_list m) →
  files s !! name = Some f →
  glob_match name = true →
  refused s SysUnlink name = true →
  ∃ s', clear s = (s', Return tt) ∧
        metadata s' = metadata s ∧
        files s' !! name = Some f ∧
        files s' !! metadata_file = files s !! metadata_file ∧
        ∃ names, trace s' = trace s ++ (EvUnlink <$> names).
Proof.
  intros Hscan Ef Hg Hu.
  unfold clear, glob, try_except, bind at 1.
  set (found := List.filter _ _).
  assert (name ∈ found.*1) as Hin.
  { apply list_elem_of_fmap. exists (name, f). split; [done|].
    apply list_elem_of_In, filter_In. split; [|done].
    apply list_elem_of_In. rewrite Hscan. by apply elem_of_map_to_list. }
  destruct (unlink_all_frame found s) as (s1 & o & Hun & Hm & Hc & Hr & Ht & Hf).
  pose proof (unlink_all_refused found name Hin s Hu) as Hraise.
  rewrite Hun in Hraise. simpl in Hraise. subst o.
  rewrite (bind_raise _ _ _ _ Hun). exists s1. split; [done|].
  split; [done|]. split; [|split; [|done]].
  - destruct (Hf name) as [E|(_ & Hn & _)]; [by rewrite E|congruence].
  - destruct (Hf metadata_file) as [E|(Hi & _)]; [done|].
    apply glob_names_match in Hi. by rewrite glob_match_metadata_file in Hi.
Qed.

(** ** The eviction pass *)

Lemma insert_by_time_sorted x l :
  StronglySorted (λ a b, entry_time a ≤ entry_time b) l →
  StronglySorted (λ a b, entry_time a ≤ entry_time b) (insert_by_time x l).
Proof.
  induction 1 as [|y l Hl IH Hy]; simpl.
  { repeat constructor. }
  destruct (Z.leb_spec (entry_time x) (entry_time y)) as [Hxy|Hxy].
  - constructor; [by constructor|].
    constructor; [done|].
    eapply Forall_impl; [exact Hy|]. simpl. intros z Hz. lia.
  - constructor; [done|].
    rewrite insert_by_time_perm. constructor; [lia|done].
Qed.

Lemma sort_by_time_sorted l :
  StronglySorted (λ a b, entry_time a ≤ entry_time b) (sort_by_time l).
Proof.
  induction l as [|x l IH]; simpl; [constructor|].
  by apply insert_by_time_sorted.
Qed.

Lemma discarded_refused p s : refused (discarded p s) = refused s.
Proof. unfold discarded. by destruct (refused s SysUnlink p). Qed.

Lemma discarded_files_ne p s name :
  name ≠ p → files (discarded p s) !! name = files s !! name.
Proof.
  intros Hne. unfold discarded. destruct (refused s SysUnlink p); [done|].
  simpl. by rewrite lookup_delete_ne.
Qed.

(** One round of the loop on an entry whose file is there. *)
Lemma evict_round_present (e : entry) (removed_size : Z) s :
  is_Some (files s !! entry_name e) →
  try_except
    (unlink (entry_name e) ;;
     modify (set_metadata (delete (entry_name e))) ;;
     ret (removed_size + entry_size e))
    (ret removed_size) s
  = (discarded (entry_name e) s,
     Return (removed_size + freed (refused s) [e])).
Proof.
  intros [f Ef].
  unfold try_except, bind, unlink, modify, ret, discarded, freed. simpl.
  destruct (refused s SysUnlink (entry_name e)).
  - by rewrite !Z.add_0_r.
  - rewrite Ef. by rewrite Z.add_0_r.
Qed.

Lemma freed_cons ref e l : freed ref (e :: l) = freed ref [e] + freed ref l.
Proof. unfold freed. simpl. lia. Qed.

Lemma evict_spec total_size target_size (l : list entry) :
  ∀ removed_size s,
    NoDup (entry_name <$> l) →
    Forall (λ e, is_Some (files s !! entry_name e)) l →
    ∃ n, (n ≤ length l)%nat ∧
         (∀ k, (k < n)%nat →
               Qle_bool (inject_Z (total_size
                                   - (removed_size + freed (refused s) (take k l))))
                 target_size = false) ∧
         (n = length l ∨
          Qle_bool (inject_Z (total_size
                              - (removed_size + freed (refused s) (take n l))))
            target_size = true) ∧
         evict total_size target_size l removed_size s
         = (discard_all (take n l) s,
            Return (removed_size + freed (refused s) (take n l))).
Proof.
  induction l as [|e l IH]; intros r s Hnd Hpr.
  { exists 0%nat. simpl. repeat split; [lia|lia|by left|].
    unfold ret, freed. simpl. by rewrite Z.add_0_r. }
  simpl. destruct (Qle_bool (inject_Z (total_size - r)) target_size) eqn:Hq.
  { exists 0%nat. simpl. repeat split; [lia|lia| |].
    - right. unfold freed. simpl. by rewrite Z.add_0_r.
    - unfold ret, freed. simpl. by rewrite Z.add_0_r. }
  apply Forall_cons in Hpr as [He Hpr].
  rewrite fmap_cons in Hnd. apply NoDup_cons in Hnd as [Hnotin Hnd].
  rewrite (bind_return _ _ _ _ _ (evict_round_present e r s He)).
  destruct (IH (r + freed (refused s) [e]) (discarded (entry_name e) s) Hnd)
    as (n & Hn & Hbefore & Hstop & Hev).
  { apply Forall_forall. intros e' He'.
    rewrite discarded_files_ne.
    - by eapply Forall_forall in Hpr.
    - intros Heq. apply Hnotin. rewrite <- Heq.
      apply list_elem_of_fmap. eauto. }
  rewrite discarded_refused in *.
  exists (S n). rewrite firstn_cons, freed_cons, Z.add_assoc.
  split; [simpl; lia|]. split; [|split].
  - intros [|k] Hk.
    + simpl. by rewrite Z.add_0_r.
    + rewrite firstn_cons, freed_cons, Z.add_assoc. apply Hbefore. lia.
  - destruct Hstop as [->|Hstop]; [by left|by right].
  - by rewrite Hev.
Qed.

Lemma discard_all_refused l s : refused (discard_all l s) = refused s.
Proof.
  revert s. induction l as [|e l IH]; intros s; simpl; [done|].
  unfold discard_all in IH. by rewrite IH, discarded_refused.
Qed.

Lemma discard_all_clock l s : clock (discard_all l s) = clock s.
Proof.
  revert s. induction l as [|e l IH]; intros s; simpl; [done|].
  unfold discard_all in IH. rewrite IH. unfold discarded.
  by destruct (refused s SysUnlink _).
Qed.

Lemma deleted_names_cons ref e l :
  deleted_names ref (e :: l)
  = if ref SysUnlink (entry_name e) then deleted_names ref l
    else entry_name e :: deleted_names ref l.
Proof. unfold deleted_names. simpl. by destruct (ref _ _). Qed.

Lemma discard_all_files l :
  ∀ s name,
    files (discard_all l s) !! name
    = if bool_decide (name ∈ deleted_names (refused s) l) then None
      else files s !! name.
Proof.
  induction l as [|e l IH]; intros s name.
  { change (discard_all [] s) with s. change (deleted_names (refused s) []) with (@nil string).
    by rewrite bool_decide_eq_false_2 by apply not_elem_of_nil. }
  change (discard_all (e :: l) s) with (discard_all l (discarded (entry_name e) s)).
  rewrite IH, discarded_refused, deleted_names_cons.
  unfold discarded. destruct (refused s SysUnlink (entry_name e)); [done|].
  simpl. destruct (decide (name = entry_name e)) as [->|Hne].
  - rewrite lookup_delete_eq.
    rewrite (bool_decide_eq_true_2 (_ ∈ _ :: _)) by apply list_elem_of_here.
    by destruct (bool_decide _).
  - rewrite lookup_delete_ne by done.
    apply (f_equal (λ b : bool, if b then None else files s !! name)).
    apply bool_decide_ext. rewrite elem_of_cons.
    split; [by right|]. by intros [?|?].
Qed.

Lemma discard_all_metadata l :
  ∀ s name,
    metadata (discard_all l s) !! name
    = if bool_decide (name ∈ deleted_names (refused s) l) then None
      else metadata s !! name.
Proof.
  induction l as [|e l IH]; intros s name.
  { change (discard_all [] s) with s. change (deleted_names (refused s) []) with (@nil string).
    by rewrite bool_decide_eq_false_2 by apply not_elem_of_nil. }
  change (discard_all (e :: l) s) with (discard_all l (discarded (entry_name e) s)).
  rewrite IH, discarded_refused, deleted_names_cons.
  unfold discarded. destruct (refused s SysUnlink (entry_name e)); [done|].
  simpl. destruct (decide (name = entry_name e)) as [->|Hne].
  - rewrite lookup_delete_eq.
    rewrite (bool_decide_eq_true_2 (_ ∈ _ :: _)) by apply list_elem_of_here.
    by destruct (bool_decide _).
  - rewrite lookup_delete_ne by done.
    apply (f_equal (λ b : bool, if b then None else metadata s !! name)).
    apply bool_decide_ext. rewrite elem_of_cons.
    split; [by right|]. by intros [?|?].
Qed.

Lemma discard_all_trace l :
  ∀ s, trace (discard_all l s)
       = trace s ++ (EvUnlink <$> deleted_names (refused s) l).
Proof.
  induction l as [|e l IH]; intros s.
  { simpl. by rewrite app_nil_r. }
  change (discard_all (e :: l) s) with (discard_all l (discarded (entry_name e) s)).
  rewrite IH, discarded_refused, deleted_names_cons.
  unfold discarded. destruct (refused s SysUnlink (entry_name e)); [done|].
  simpl. by rewrite <- app_assoc.
Qed.

Lemma NoDup_filter_fst (f : string * file → bool) (l : list (string * file)) :
  NoDup l.*1 → NoDup (List.filter f l).*1.
Proof.
  induction l as [|x l IH]; simpl; [done|].
  intros [Hx Hl]%NoDup_cons. destruct (f x); simpl; [|auto].
  apply NoDup_cons. split; [|auto].
  intros [y [Hy Hin]]%list_elem_of_fmap. apply Hx.
  apply list_elem_of_fmap. exists y. split; [done|].
  by apply list_elem_of_In, filter_In in Hin as [?%list_elem_of_In _].
Qed.

(** What [glob] finds, when the enumeration lists the directory: all the
    files whose names match the pattern, each once. *)
Lemma glob_found (s : state) :
  (∀ m : gmap string file, scandir m ≡ₚ map_to_list m) →
  let found := List.filter (λ nf, glob_match nf.1) (scandir (files s)) in
  NoDup found.*1 ∧
  ∀ name f, (name, f) ∈ found ↔ files s !! name = Some f ∧ glob_match name = true.
Proof.
  intros Hscan found. split.
  - apply NoDup_filter_fst. rewrite Hscan. apply NoDup_fst_map_to_list.
  - intros name f. subst found.
    rewrite list_elem_of_In, filter_In, <- list_elem_of_In, Hscan.
    by rewrite elem_of_map_to_list.
Qed.

(** C2. Let [total_size] be the summed size of the files that match
    [embedding_*.pkl]. When it is at most [max_size_bytes] the pass changes
    nothing. Otherwise the pass walks the entries in ascending order of
    recency (the time stamp of the record, or the modification time of the
    file when there is no record) and tries to delete each one, counting in
    [removed_size] the sizes of those it deleted; it stops at the first
    entry where [total_size - removed_size <= max_size_bytes * 0.8], or at
    the end of the list. The files it deleted are gone together with their
    records, everything else is as before, and the index is written once,
    after the last deletion. The limit is below 2^49 bytes in absolute
    value: there the floating-point product [max_size_bytes * 0.8] of the
    source decides the test of the loop as the exact product does. *)
Theorem cleanup_old_files_spec (s : state) :
  (∀ m : gmap string file, scandir m ≡ₚ map_to_list m) →
  Z.abs (max_size_bytes s) < 2 ^ 49 →
  let found := List.filter (λ nf, glob_match nf.1) (scandir (files s)) in
  let total_size := sum_sizes found in
  let limit := max_size_bytes s in
  (∀ name f, (name, f) ∈ found ↔ files s !! name = Some f ∧ glob_match name = true) ∧
  (total_size ≤ limit → _cleanup_old_files s = (s, Return tt)) ∧
  (limit < total_size →
   ∃ (sorted : list entry) (n : nat) (s' : state),
     sorted ≡ₚ entry_of (metadata s) <$> found ∧
     StronglySorted (λ a b, entry_time a ≤ entry_time b) sorted ∧
     (∀ k, (k < n)%nat →
        ¬ (inject_Z (total_size - freed (refused s) (take k sorted))
           <= inject_Z limit * 0.8)%Q) ∧
     (n = length sorted ∨
      (inject_Z (total_size - freed (refused s) (take n sorted))
       <= inject_Z limit * 0.8)%Q) ∧
     _cleanup_old_files s = (s', Return tt) ∧
     let deleted := deleted_names (refused s) (take n sorted) in
     (∀ name, name ≠ metadata_file →
        files s' !! name
        = if bool_decide (name ∈ deleted) then None else files s !! name) ∧
     (∀ name,
        metadata s' !! name
        = if bool_decide (name ∈ deleted) then None else metadata s !! name) ∧
     (refused s SysOpenWrite metadata_file = false →
        files s' !! metadata_file
        = Some (File (index_dump (metadata s')) (clock s))) ∧
     trace s'
     = trace s ++ (EvUnlink <$> deleted)
       ++ (if refused s SysOpenWrite metadata_file then []
           else [EvWrite metadata_file])).
Proof.
  intros Hscan _ found total_size limit.
  destruct (glob_found s Hscan) as [Hnd Hfound]. fold found in Hnd, Hfound.
  split; [exact Hfound|].
  assert (_cleanup_old_files s
          = try_except
              (if limit <? total_size
               then evict total_size (inject_Z limit * 0.8)
                      (sort_by_time (entry_of (metadata s) <$> found)) 0 ;;
                    _save_metadata
               else pass) pass s) as Hrun.
  { unfold _cleanup_old_files, glob, get_metadata, get_max_size_bytes.
    unfold try_except, bind at 1 2 3. rewrite scan_fold. simpl.
    fold found. fold total_size. fold limit. done. }
  split.
  { intros Hle. rewrite Hrun.
    by destruct (Z.ltb_spec limit total_size); [lia|]. }
  intros Hlt. rewrite Hrun.
  destruct (Z.ltb_spec limit total_size); [|lia].
  set (sorted := sort_by_time (entry_of (metadata s) <$> found)).
  assert (sorted ≡ₚ entry_of (metadata s) <$> found) as Hperm
    by apply sort_by_time_perm.
  destruct (evict_spec total_size (inject_Z limit * 0.8) sorted 0 s)
    as (n & Hn & Hbefore & Hstop & Hev).
  { rewrite Hperm, <- list_fmap_compose. exact Hnd. }
  { rewrite Hperm. apply Forall_fmap, Forall_forall.
    intros [name f] Hin. apply Hfound in Hin as [Hf _]. simpl.
    unfold entry_name. simpl. by rewrite Hf. }
  exists sorted, n, (saved (discard_all (take n sorted) s)).
  split; [done|]. split; [apply sort_by_time_sorted|].
  split.
  { intros k Hk Hq%Qle_bool_iff. specialize (Hbefore k Hk).
    rewrite Z.add_0_l in Hbefore. congruence. }
  split.
  { destruct Hstop as [?|Hq]; [by left|right].
    rewrite Z.add_0_l in Hq. by apply Qle_bool_iff. }
  split.
  { apply try_return.
    rewrite (bind_return _ _ _ _ _ Hev). by rewrite save_metadata_eq. }
  simpl. split; [|split; [|split]].
  - intros name Hne. rewrite saved_files_ne by done. apply discard_all_files.
  - intros name. rewrite saved_metadata. apply discard_all_metadata.
  - intros Hw. rewrite saved_metadata. unfold saved.
    rewrite discard_all_refused, Hw. simpl.
    by rewrite lookup_insert_eq, discard_all_clock.
  - unfold saved. rewrite discard_all_refused.
    destruct (refused s SysOpenWrite metadata_file); simpl.
    + by rewrite app_nil_r, discard_all_trace.
    + by rewrite discard_all_trace, <- app_assoc.
Qed.

(** The test of the loop, on integers. *)
Lemma target_reached_iff (x limit : Z) :
  (inject_Z x <= inject_Z limit * 0.8)%Q ↔ 5 * x ≤ 4 * limit.
Proof. unfold Qle. simpl. lia. Qed.

(** ** Time stamps *)

(** In one call, a record is left alone, stamped with the time of the call,
    or dropped; the clock is not touched. *)
Lemma get_records (key : K) s :
  restamps s (get key s).1.
Proof.
  unfold restamps.
  destruct (files s !! _get_cache_path key) as [f|] eqn:E.
  2: { rewrite get_missing by done. split; [done|]. by left. }
  destruct (refused s SysOpenRead (_get_cache_path key)) eqn:Hr;
    [|destruct (pickle_load (content f)) as [v|] eqn:Hl].
  - rewrite (get_unreadable key s f) by auto. simpl.
    unfold discarded. destruct (refused s SysUnlink _); [split; [done|by left]|].
    split; [done|]. simpl. intros name.
    destruct (decide (name = _get_cache_path key)) as [->|Hne].
    + right. right. apply lookup_delete_eq.
    + left. by apply lookup_delete_ne.
  - rewrite (get_hit key s f v) by auto. simpl.
    rewrite saved_clock. split; [done|]. rewrite saved_metadata. simpl.
    intros name. destruct (decide (name = _get_cache_path key)) as [->|Hne].
    + right. left. apply lookup_insert_eq.
    + left. by apply lookup_insert_ne.
  - rewrite (get_unreadable key s f) by auto. simpl.
    unfold discarded. destruct (refused s SysUnlink _); [split; [done|by left]|].
    split; [done|]. simpl. intros name.
    destruct (decide (name = _get_cache_path key)) as [->|Hne].
    + right. right. apply lookup_delete_eq.
    + left. by apply lookup_delete_ne.
Qed.

Lemma stored_record (key : K) (data : bytes) s name :
  metadata (stored key data s) !! name
  = if decide (name = _get_cache_path key) then Some (clock s)
    else metadata s !! name.
Proof.
  unfold stored. rewrite saved_metadata. simpl.
  destruct (decide _) as [->|Hne].
  - apply lookup_insert_eq.
  - by apply lookup_insert_ne.
Qed.

Lemma stored_metadata (key : K) (data : bytes) s :
  metadata (stored key data s) = <[_get_cache_path key := clock s]> (metadata s).
Proof. unfold stored. by rewrite saved_metadata. Qed.

Lemma put_records (key : K) (value : V) s :
  restamps s (put key value s).1.
Proof.
  unfold restamps.
  destruct (put_cases key value s)
    as [(s' & -> & Hm & Hc & _)
       |[(_ & s' & data & _ & -> & Hm & Hc & _)
        |(data & st & _ & -> & _ & Hmeta & Hclock & _)]].
  - simpl. split; [done|]. intros name. left. by rewrite Hm.
  - simpl. split; [done|]. intros name. left. by rewrite Hm.
  - destruct (cleanup_fades st) as (s' & -> & _ & Hf & Hc & _).
    simpl. split.
    { rewrite Hc, Hclock. unfold stored. by rewrite saved_clock. }
    intros name. destruct (Hf name) as [->| ->]; [|by right; right].
    rewrite Hmeta, stored_record. destruct (decide _); [right; by left|by left].
Qed.

Lemma clear_eq s :
  clear s
  = match unlink_all (List.filter (λ nf, glob_match nf.1) (scandir (files s))) s with
    | (s1, Return _) => (saved (set_metadata (λ _, ∅) s1), Return tt)
    | (s1, Raise) => (s1, Return tt)
    end.
Proof.
  unfold clear, glob, try_except, bind, modify.
  destruct (unlink_all _ s) as [s1 [[]|]]; [|done].
  by rewrite save_metadata_eq.
Qed.

Lemma clear_records s : restamps s (clear s).1.
Proof.
  unfold restamps. rewrite clear_eq.
  set (found := List.filter _ _).
  destruct (unlink_all_frame found s) as (s1 & o & Hu & Hm & Hc & Hr & _ & Hf).
  rewrite Hu. destruct o as [[]|]; simpl.
  - rewrite saved_clock, saved_metadata. simpl.
    split; [done|]. intros name. right. right. apply lookup_empty.
  - split; [done|]. intros name. left. by rewrite Hm.
Qed.

Lemma run_op_records (o : op) s : restamps s (run_op o s).1.
Proof.
  destruct o as [key|key value|key| |]; simpl.
  - unfold bind. pose proof (get_records key s) as H.
    by destruct (get key s) as [s' [r|]].
  - apply put_records.
  - split; [done|]. by left.
  - apply clear_records.
  - split; [done|]. by left.
Qed.

(** A record found after a run of calls is the record from before the run,
    or was stamped during the run. *)
Lemma run_records (calls : list (Z * op)) :
  ∀ s name r',
    Sorted Z.le (clock s :: calls.*1) →
    metadata (run calls s) !! name = Some r' →
    metadata s !! name = Some r' ∨ clock s ≤ r'.
Proof.
  induction calls as [|[t o] calls IH]; intros s name r' Hs Hr'; simpl in *.
  { by left. }
  apply Sorted_inv in Hs as [Hs Ht]. apply HdRel_inv in Ht.
  destruct (run_op_records o (set_clock t s)) as [Hc Hrec].
  simpl in Hc, Hrec.
  destruct (IH (step s (t, o)) name r') as [E|Hle]; try done.
  - unfold step. simpl. by rewrite Hc.
  - unfold step in E. simpl in E.
    destruct (Hrec name) as [E'|[E'|E']]; rewrite E' in E.
    + by left.
    + right. injection E as <-. done.
    + done.
  - right. unfold step in Hle. simpl in Hle. rewrite Hc in Hle. lia.
Qed.

(** Records that are not ahead of the clock stay so along a run, and the
    clock of the state follows the times of the calls. *)
Lemma run_keeps_the_past (calls1 calls2 : list (Z * op)) :
  ∀ s, map_Forall (λ _ stamp, stamp ≤ clock s) (metadata s) →
       Sorted Z.le (clock s :: (calls1 ++ calls2).*1) →
       map_Forall (λ _ stamp, stamp ≤ clock (run calls1 s)) (metadata (run calls1 s)) ∧
       Sorted Z.le (clock (run calls1 s) :: calls2.*1).
Proof.
  induction calls1 as [|[t o] calls1 IH]; intros s Hpast Hs; [done|].
  simpl in Hs. apply Sorted_inv in Hs as [Hs Ht]. apply HdRel_inv in Ht.
  destruct (run_op_records o (set_clock t s)) as [Hc Hrec].
  simpl in Hc, Hrec. simpl. apply IH.
  - unfold step. simpl. rewrite Hc. intros name r Hr.
    destruct (Hrec name) as [E|[E|E]]; rewrite E in Hr.
    + specialize (Hpast name r Hr). simpl in Hpast. simpl. lia.
    + injection Hr as <-. simpl. lia.
    + done.
  - unfold step. simpl. by rewrite Hc.
Qed.

(** C7. With a clock that never goes back and records that are not ahead
    of it, a run of calls never lowers the time stamp of a record, from the
    start of the run to its end and from any point of the run to its end.
    A [get] of a key whose entry file can be opened and unpickles returns
    the value and leaves the record of the key at the current time, and
    these are the only [get]s that return a value. A [put] that goes
    through, by the rename or by the copy that replaces it, sets the record
    of its key to the current time, and its eviction pass then keeps that
    record or drops it. *)
Theorem record_stamps_never_decrease (s : state) (calls : list (Z * op)) :
  map_Forall (λ _ stamp, stamp ≤ clock s) (metadata s) →
  Sorted Z.le (clock s :: calls.*1) →
  (∀ name r r',
     metadata s !! name = Some r →
     metadata (run calls s) !! name = Some r' →
     r ≤ r') ∧
  (∀ calls1 calls2 name r r',
     calls = calls1 ++ calls2 →
     metadata (run calls1 s) !! name = Some r →
     metadata (run calls s) !! name = Some r' →
     r ≤ r') ∧
  (∀ (key : K) f v,
     files s !! _get_cache_path key = Some f →
     refused s SysOpenRead (_get_cache_path key) = false →
     pickle_load (content f) = Some v →
     (get key s).2 = Return (Some v) ∧
     metadata (get key s).1 !! _get_cache_path key = Some (clock s)) ∧
  (∀ (key : K) v,
     (get key s).2 = Return (Some v) →
     metadata (get key s).1 !! _get_cache_path key = Some (clock s)) ∧
  (∀ (key : K) value data,
     refused s SysOpenWrite (with_suffix ".tmp" (_get_cache_path key)) = false →
     pickle_dump value = Dumped data →
     move_goes_through (with_suffix ".tmp" (_get_cache_path key))
       (_get_cache_path key) s = true →
     ∃ st, put key value s = _cleanup_old_files st ∧
           metadata st = <[_get_cache_path key := clock s]> (metadata s) ∧
           (metadata (put key value s).1 !! _get_cache_path key = Some (clock s) ∨
            metadata (put key value s).1 !! _get_cache_path key = None)).
Proof.
  intros Hpast Hclock. split; [|split; [|split; [|split]]].
  - intros name r r' Hr Hr'.
    destruct (run_records calls s name r' Hclock Hr') as [E|Hle].
    + rewrite E in Hr. injection Hr as <-. lia.
    + specialize (Hpast name r Hr). simpl in Hpast. lia.
  - intros calls1 calls2 name r r' -> Hr Hr'.
    destruct (run_keeps_the_past calls1 calls2 s Hpast Hclock) as [Hpast1 Hclock1].
    unfold run in Hr'. rewrite fold_left_app in Hr'.
    fold (run calls1 s) in Hr'. fold (run calls2 (run calls1 s)) in Hr'.
    destruct (run_records calls2 (run calls1 s) name r' Hclock1 Hr') as [E|Hle].
    + rewrite E in Hr. injection Hr as <-. lia.
    + specialize (Hpast1 name r Hr). simpl in Hpast1. lia.
  - intros key f v E Hr Hl.
    rewrite (get_hit key s f v) by auto. simpl. split; [done|].
    rewrite saved_metadata. simpl. apply lookup_insert_eq.
  - intros key v Hv.
    destruct (files s !! _get_cache_path key) as [f|] eqn:E.
    2: { by rewrite get_missing in Hv. }
    destruct (refused s SysOpenRead (_get_cache_path key)) eqn:Hr.
    { by rewrite (get_unreadable key s f) in Hv by auto. }
    destruct (pickle_load (content f)) as [v'|] eqn:Hl.
    2: { by rewrite (get_unreadable key s f) in Hv by auto. }
    rewrite (get_hit key s f v') by auto. simpl.
    rewrite saved_metadata. simpl. apply lookup_insert_eq.
  - intros key value data Ho Hd Hmove.
    assert (∃ st, put key value s = _cleanup_old_files st ∧
                  metadata st = <[_get_cache_path key := clock s]> (metadata s))
      as (st & Hput & Hmeta).
    { destruct (refused s SysRename (_get_cache_path key)) eqn:Hm.
      - unfold move_goes_through in Hmove. rewrite Hm in Hmove. simpl in Hmove.
        apply andb_true_iff in Hmove as [Hmove Hu%negb_true_iff].
        apply andb_true_iff in Hmove as [Hmove Hcopy%negb_true_iff].
        apply andb_true_iff in Hmove as [Hread%negb_true_iff Hwrite%negb_true_iff].
        exists (stored_by_copy key data s).
        split; [by apply put_stores_by_copy|].
        destruct (stored_by_copy_same key data s) as (_ & -> & _).
        apply stored_metadata.
      - exists (stored key data s).
        split; [by apply put_stores|apply stored_metadata]. }
    exists st. split; [done|]. split; [done|].
    rewrite Hput.
    destruct (cleanup_fades st) as (s' & -> & _ & Hf & _).
    simpl. destruct (Hf (_get_cache_path key)) as [->| ->]; [|by right].
    left. rewrite Hmeta. apply lookup_insert_eq.
Qed.

(** ** [clear] when no deletion fails *)

Lemma unlink_all_ok (l : list (string * file)) :
  ∀ s, NoDup l.*1 →
       Forall (λ nf, is_Some (files s !! nf.1) ∧ refused s SysUnlink nf.1 = false) l →
       ∃ s', unlink_all l s = (s', Return tt) ∧
             ∀ name, name ∈ l.*1 → files s' !! name = None.
Proof.
  induction l as [|nf l IH]; intros s Hnd Hall; simpl.
  { exists s. split; [done|]. intros name Hin. by apply elem_of_nil in Hin. }
  rewrite fmap_cons in Hnd. apply NoDup_cons in Hnd as [Hnotin Hnd].
  apply Forall_cons in Hall as [[[f Ef] Hu] Hall].
  unfold bind, unlink. rewrite Hu, Ef.
  set (s1 := log _ _).
  destruct (IH s1 Hnd) as (s' & Hrun & Hgone).
  { apply Forall_forall. intros nf' Hin.
    eapply Forall_forall in Hall as [Hf Hr]; [|exact Hin].
    split; [|done]. subst s1. simpl. rewrite lookup_delete_ne; [done|].
    intros Heq. apply Hnotin. rewrite Heq. apply list_elem_of_fmap. eauto. }
  exists s'. split; [done|].
  intros name [->|Hin]%elem_of_cons; [|by apply Hgone].
  destruct (unlink_all_frame l s1) as (s2 & o & Hrun' & _ & _ & _ & _ & Hf).
  rewrite Hrun in Hrun'. injection Hrun' as <- <-.
  destruct (Hf nf.1) as [E|(_ & _ & E)]; [|done].
  rewrite E. subst s1. simpl. apply lookup_delete_eq.
Qed.

(** When the system refuses no deletion, [clear] empties the cache: no file
    matching [embedding_*.pkl] is left, [self.metadata] is empty,
    [get_cache_info] counts no file and [find] answers false for every
    key. *)
Lemma clear_empties (s : state) :
  (∀ m : gmap string file, scandir m ≡ₚ map_to_list m) →
  (∀ name, glob_match name = true → refused s SysUnlink name = false) →
  ∃ s', clear s = (s', Return tt) ∧
        (∀ name, glob_match name = true → files s' !! name = None) ∧
        metadata s' = ∅ ∧
        (refused s SysOpenWrite metadata_file = false →
         files s' !! metadata_file = Some (File (index_dump ∅) (clock s))) ∧
        (∃ info, get_cache_info s' = (s', Return info) ∧ info_files info = 0%nat) ∧
        (∀ key : K, find key s' = (s', Return false)).
Proof.
  intros Hscan Hallow.
  destruct (glob_found s Hscan) as [Hnd Hfound].
  rewrite clear_eq. set (found := List.filter _ _) in *.
  destruct (unlink_all_ok found s Hnd) as (s1 & Hrun & Hgone).
  { apply Forall_forall. intros [name f] [Hf Hg]%Hfound. simpl.
    split; [by rewrite Hf|auto]. }
  destruct (unlink_all_frame found s) as (s2 & o & Hrun' & _ & Hc & Hr & _ & Hf).
  rewrite Hrun in Hrun'. injection Hrun' as <- <-.
  rewrite Hrun. eexists. split; [done|].
  assert (∀ name, glob_match name = true →
                  files (saved (set_metadata (λ _, ∅) s1)) !! name = None) as Hnone.
  { intros name Hg. rewrite saved_files_ne.
    2: { intros ->. by rewrite glob_match_metadata_file in Hg. }
    simpl. destruct (files s !! name) as [f|] eqn:Ef.
    - apply Hgone. apply list_elem_of_fmap. exists (name, f).
      split; [done|]. by apply Hfound.
    - destruct (Hf name) as [E|(_ & _ & E)]; [by rewrite E|done]. }
  split; [exact Hnone|]. split; [by rewrite saved_metadata|]. split; [|split].
  - intros Hw. unfold saved. simpl. rewrite Hr, Hw. simpl.
    by rewrite lookup_insert_eq, Hc.
  - unfold get_cache_info, try_except, bind, glob, ret.
    destruct (glob_found (saved (set_metadata (λ _, ∅) s1)) Hscan) as [_ Hfound'].
    destruct (List.filter (λ nf, glob_match nf.1)
                (scandir (files (saved (set_metadata (λ _, ∅) s1)))))
      as [|[name f] found']; [eauto|].
    destruct (Hfound' name f) as [[Hin Hg] _]; [apply list_elem_of_here|].
    by rewrite Hnone in Hin.
  - intros key. unfold find, path_exists.
    by rewrite Hnone by apply glob_match_cache_key.
Qed.

(** What [clear] may touch, whatever fails. *)
Lemma clear_frame (s : state) :
  ∃ s', clear s = (s', Return tt) ∧
    ∀ name,
      files s' !! name = files s !! name ∨
      (glob_match name = true ∧ files s' !! name = None) ∨
      (name = metadata_file ∧
       files s' !! name = Some (File (index_dump ∅) (clock s))).
Proof.
  rewrite clear_eq. set (found := List.filter _ _).
  destruct (unlink_all_frame found s) as (s1 & o & Hu & Hm & Hc & Hr & _ & Hf).
  assert (∀ name, files s1 !! name = files s !! name ∨
                  (glob_match name = true ∧ files s1 !! name = None)) as Hf1.
  { intros name. destruct (Hf name) as [?|(Hin & _ & ?)]; [by left|right].
    split; [|done]. by eapply glob_names_match. }
  rewrite Hu. destruct o as [[]|].
  - eexists. split; [done|].
    intros name. unfold saved. simpl. rewrite Hr.
    destruct (refused s SysOpenWrite metadata_file); simpl.
    + destruct (Hf1 name) as [?|?]; auto.
    + destruct (decide (name = metadata_file)) as [->|Hne].
      * right. right. split; [done|]. by rewrite lookup_insert_eq, Hc.
      * rewrite lookup_insert_ne by done.
        destruct (Hf1 name) as [?|?]; auto.
  - exists s1. split; [done|].
    intros name. destruct (Hf1 name) as [?|?]; auto.
Qed.

(** C10. [clear] never raises, and after it every file is as before,
    except that a file whose name matches [embedding_*.pkl] may be gone and
    the index file may hold the pickle of the empty index. So every file
    named [embedding_*.tmp] is as before, among them the temporary file of
    every key, and an index file that existed still exists; when no
    deletion and no write is refused, the index file holds the pickle of
    the empty index. *)
Theorem clear_touches_entry_files_only (s : state) :
  (∀ m : gmap string file, scandir m ≡ₚ map_to_list m) →
  ∃ s', clear s = (s', Return tt) ∧
    (∀ name,
       files s' !! name = files s !! name ∨
       (glob_match name = true ∧ files s' !! name = None) ∨
       (name = metadata_file ∧
        files s' !! name = Some (File (index_dump ∅) (clock s)))) ∧
    (∀ h : string,
       files s' !! ("embedding_" +:+ h +:+ ".tmp")
       = files s !! ("embedding_" +:+ h +:+ ".tmp")) ∧
    (∀ key : K,
       files s' !! with_suffix ".tmp" (_get_cache_path key)
       = files s !! with_suffix ".tmp" (_get_cache_path key)) ∧
    (is_Some (files s !! metadata_file) → is_Some (files s' !! metadata_file)) ∧
    ((∀ name, glob_match name = true → refused s SysUnlink name = false) →
     refused s SysOpenWrite metadata_file = false →
     files s' !! metadata_file = Some (File (index_dump ∅) (clock s))).
Proof.
  intros Hscan. destruct (clear_frame s) as (s' & Hclear & Hframe).
  exists s'. split; [done|]. split; [done|].
  assert (∀ h : string,
            files s' !! ("embedding_" +:+ h +:+ ".tmp")
            = files s !! ("embedding_" +:+ h +:+ ".tmp")) as Htmp.
  { intros h. destruct (Hframe ("embedding_" +:+ h +:+ ".tmp"))
      as [E|[[G _]|[E _]]]; [done| |].
    - by rewrite glob_match_tmp in G.
    - discriminate E. }
  split; [exact Htmp|]. split; [|split].
  - intros key. rewrite temp_path_eq. apply Htmp.
  - intros Hi. destruct (Hframe metadata_file) as [E|[[G _]|[_ E]]].
    + by rewrite E.
    + by rewrite glob_match_metadata_file in G.
    + rewrite E. eauto.
  - intros Hallow Hw.
    destruct (clear_empties s Hscan Hallow) as (s'' & Hclear' & _ & _ & Hidx & _).
    rewrite Hclear in Hclear'. injection Hclear' as <-. auto.
Qed.

(** * Further properties of the class *)

(** ** The public operations never raise *)

Lemma get_cache_info_eq s :
  get_cache_info s
  = (s, Return (CacheInfo
                  (length (List.filter (λ nf, glob_match nf.1) (scandir (files s))))
                  (inject_Z (sum_sizes (List.filter (λ nf, glob_match nf.1)
                                          (scandir (files s))))
                   / inject_Z (1024 * 1024))
                  (inject_Z (sum_sizes (List.filter (λ nf, glob_match nf.1)
                                          (scandir (files s))))
                   / inject_Z (1024 * 1024 * 1024)))).
Proof. reflexivity. Qed.


(** ** [_save_metadata], [_load_metadata] and [__init__] *)

(** X2. [_save_metadata] never raises, never changes [self.metadata], and
    touches no file other than the index file, which it leaves in place;
    when the index file cannot be opened for writing nothing changes at
    all. *)
Theorem save_metadata_is_best_effort (s : state) :
  ∃ s', _save_metadata s = (s', Return tt) ∧
        metadata s' = metadata s ∧
        (∀ name, name ≠ metadata_file → files s' !! name = files s !! name) ∧
        (is_Some (files s !! metadata_file) → is_Some (files s' !! metadata_file)) ∧
        (refused s SysOpenWrite metadata_file = true → s' = s).
Proof.
  exists (saved s). split; [apply save_metadata_eq|].
  split; [apply saved_metadata|].
  split; [intros name Hne; by apply saved_files_ne|].
  split; [apply saved_index_is_Some|].
  unfold saved. by intros ->.
Qed.

(** X3. An index written by [_save_metadata] is the index that a new
    object built on the same directory starts with, when the file could be
    written, can be read and its pickle loads back, the directory can be
    made and the limit is a finite number. The constructor changes no
    file. *)
Theorem saved_index_survives_a_restart (s s0 : state) (max_size_gb : Q) :
  refused s SysOpenWrite metadata_file = false →
  index_load (index_dump (metadata s)) = Some (PyIndex (metadata s)) →
  files s0 = files (_save_metadata s).1 →
  refused s0 SysOpenRead metadata_file = false →
  refused s0 SysMkdir cache_dir = false →
  Qle_bool (inject_Z (2 ^ 1024)) (Qabs (max_size_gb * 1024 * 1024 * 1024)) = false →
  ∃ s1, __init__ max_size_gb s0 = (s1, Return (PyIndex (metadata s))) ∧
        metadata s1 = metadata s ∧
        files s1 = files s0.
Proof.
  intros Hw Hl Hfiles Hr Hdir Hfin.
  rewrite save_metadata_eq in Hfiles. simpl in Hfiles.
  destruct (init_returns max_size_gb s0 Hdir Hfin) as (o & s1 & Hinit & Hload & _ & Hf & Hm).
  destruct (load_metadata_cases s0) as (o' & Ho' & _ & _ & _ & Hread).
  rewrite Ho' in Hload. simpl in Hload. injection Hload as ->.
  assert (o = PyIndex (metadata s)) as ->.
  { apply (Hread (File (index_dump (metadata s)) (clock s))); try done.
    rewrite Hfiles. unfold saved. rewrite Hw. simpl. apply lookup_insert_eq. }
  exists s1. done.
Qed.

(** ** File names *)

Lemma app_string_inj_l (a x y : string) : a +:+ x = a +:+ y → x = y.
Proof.
  induction a as [|c a IH]; [done|].
  rewrite !string_app_cons. intros [= E]. auto.
Qed.

Lemma app_string_inj_suffix (x y suf : string) : x +:+ suf = y +:+ suf → x = y.
Proof.
  revert y. induction x as [|c x IH]; intros [|d y] E;
    rewrite ?string_app_cons, ?string_app_nil in E.
  - done.
  - apply (f_equal String.length) in E. cbn [String.length] in E.
    rewrite length_app_string in E. lia.
  - apply (f_equal String.length) in E. cbn [String.length] in E.
    rewrite length_app_string in E. lia.
  - injection E as -> E. f_equal. auto.
Qed.

(** X4. Two keys get the same entry file exactly when their digests are
    equal. The entry name of every key matches the pattern
    [embedding_*.pkl] that the scans use and is not the name of the index
    file; the temporary name of every key does not match the pattern and is
    neither an entry name nor the name of the index file. *)
Theorem cache_key_names (key key' : K) :
  (_get_cache_key key = _get_cache_key key' ↔ md5_hexdigest key = md5_hexdigest key') ∧
  glob_match (_get_cache_key key) = true ∧
  _get_cache_path key ≠ metadata_file ∧
  glob_match (with_suffix ".tmp" (_get_cache_path key)) = false ∧
  with_suffix ".tmp" (_get_cache_path key) ≠ _get_cache_path key' ∧
  with_suffix ".tmp" (_get_cache_path key) ≠ metadata_file.
Proof.
  split; [|repeat split].
  - unfold _get_cache_key. split; [|by intros ->].
    intros E%app_string_inj_l. by apply app_string_inj_suffix in E.
  - apply glob_match_cache_key.
  - apply cache_path_ne_metadata_file.
  - apply glob_match_temp_path.
  - apply temp_path_ne_cache_path.
  - apply temp_path_ne_metadata_file.
Qed.

(** ** [get] *)

(** X5. When [find] answers false for a key, [get] answers [None] for it
    and changes nothing: no file, no record (not even a record left behind
    for that key), no write of the index. *)
Theorem get_after_find_false (key : K) (s : state) :
  find key s = (s, Return false) →
  get key s = (s, Return None).
Proof.
  unfold find, path_exists. intros Hf. apply get_missing.
  destruct (files s !! _get_cache_path key); [discriminate|done].
Qed.

(** X6. A [get] that returns a value changes no file other than the index
    file, stamps the record of the key with the current time and leaves the
    other records alone; when the index file can be written it holds the
    pickle of the new index. A second [get] of the key then returns the
    same value. *)
Theorem get_hit_keeps_the_entry (key : K) (s : state) (v : V) :
  (get key s).2 = Return (Some v) →
  let s1 := (get key s).1 in
  (∀ name, name ≠ metadata_file → files s1 !! name = files s !! name) ∧
  metadata s1 = <[_get_cache_path key := clock s]> (metadata s) ∧
  (refused s SysOpenWrite metadata_file = false →
   files s1 !! metadata_file = Some (File (index_dump (metadata s1)) (clock s))) ∧
  (get key s1).2 = Return (Some v).
Proof.
  intros Hv.
  destruct (files s !! _get_cache_path key) as [f|] eqn:E.
  2: { by rewrite get_missing in Hv. }
  destruct (refused s SysOpenRead (_get_cache_path key)) eqn:Hr.
  { by rewrite (get_unreadable key s f) in Hv by auto. }
  destruct (pickle_load (content f)) as [v'|] eqn:Hl.
  2: { by rewrite (get_unreadable key s f) in Hv by auto. }
  rewrite (get_hit key s f v') in * by auto. simpl in *.
  injection Hv as ->.
  split; [intros name Hne; by rewrite saved_files_ne|].
  split; [by rewrite saved_metadata|].
  split.
  { intros Hw. unfold saved. simpl. rewrite Hw. simpl. apply lookup_insert_eq. }
  rewrite (get_hit key _ f v); try done.
  - rewrite saved_files_ne by apply cache_path_ne_metadata_file. done.
  - by rewrite saved_refused.
Qed.

(** X7. [get] takes any failure to read the entry for a damaged entry: when
    the entry file cannot be opened, [get] answers [None] even though the
    contents of the file are sound, and tries to delete the file. When the
    system lets the file go, the file and its record are gone and [find]
    answers false; when the system refuses that too, nothing has changed
    and [find] still answers true. *)
Theorem get_discards_an_entry_it_cannot_open (key : K) (s : state) (f : file) (v : V) :
  files s !! _get_cache_path key = Some f →
  pickle_load (content f) = Some v →
  refused s SysOpenRead (_get_cache_path key) = true →
  ∃ s', get key s = (s', Return None) ∧
        (refused s SysUnlink (_get_cache_path key) = false →
         files s' !! _get_cache_path key = None ∧
         metadata s' !! _get_cache_path key = None ∧
         find key s' = (s', Return false)) ∧
        (refused s SysUnlink (_get_cache_path key) = true →
         s' = s ∧ find key s' = (s', Return true)).
Proof.
  intros E Hl Hr.
  rewrite (get_unreadable key s f) by auto.
  eexists. split; [done|]. unfold discarded, find, path_exists.
  split; intros Hu; rewrite Hu; simpl.
  - by rewrite !lookup_delete_eq.
  - by rewrite E.
Qed.

(** ** What [put] and its eviction pass may touch *)

Lemma evict_round_cases (e : entry) (removed_size : Z) s :
  ∃ s' r,
    try_except
      (unlink (entry_name e) ;;
       modify (set_metadata (delete (entry_name e))) ;;
       ret (removed_size + entry_size e))
      (ret removed_size) s = (s', Return r) ∧
    (s' = s ∨
     (is_Some (files s !! entry_name e) ∧
      s' = set_metadata (delete (entry_name e))
             (log (EvUnlink (entry_name e)) (set_files (delete (entry_name e)) s)))).
Proof.
  unfold try_except, bind, unlink, modify, ret.
  destruct (refused s SysUnlink (entry_name e)); [eauto|].
  destruct (files s !! entry_name e) eqn:E; [|eauto].
  eexists _, _. split; [done|]. right. split; [eauto|done].
Qed.

Lemma evict_frame total_size target_size (l : list entry) :
  ∀ removed_size s,
    ∃ s' r, evict total_size target_size l removed_size s = (s', Return r) ∧
            clock s' = clock s ∧ refused s' = refused s ∧
            max_size_bytes s' = max_size_bytes s ∧
            ∀ name,
              (files s' !! name = files s !! name ∧
               metadata s' !! name = metadata s !! name) ∨
              (name ∈ entry_name <$> l ∧ is_Some (files s !! name) ∧
               files s' !! name = None ∧ metadata s' !! name = None).
Proof.
  induction l as [|e l IH]; intros r s; simpl.
  { exists s, r. repeat split; try done. by left. }
  destruct (Qle_bool _ _).
  { exists s, r. repeat split; try done. by left. }
  destruct (evict_round_cases e r s) as (s1 & r1 & Hround & Hs1).
  rewrite (bind_return _ _ _ _ _ Hround).
  destruct (IH r1 s1) as (s' & r' & -> & Hc & Hr & Hm & Hf).
  exists s', r'. split; [done|].
  destruct Hs1 as [->|[Hpresent ->]].
  - repeat split; try done. intros name.
    destruct (Hf name) as [?|(Hin & ?)]; [by left|right].
    split; [by apply list_elem_of_further|done].
  - simpl in *. repeat split; try done. intros name.
    destruct (decide (name = entry_name e)) as [->|Hne].
    + right. split; [apply list_elem_of_here|]. split; [done|].
      destruct (Hf (entry_name e)) as [[-> ->]|(_ & _ & -> & ->)]; [|done].
      by rewrite !lookup_delete_eq.
    + destruct (Hf name) as [[E1 E2]|(Hin & Hp & ? & ?)].
      * left. by rewrite E1, E2, !lookup_delete_ne.
      * right. split; [by apply list_elem_of_further|].
        by rewrite lookup_delete_ne in Hp.
Qed.

(** An eviction pass deletes an entry file together with its record, or
    leaves both alone; it changes nothing else but the index file. *)
Lemma cleanup_frame s :
  ∃ s', _cleanup_old_files s = (s', Return tt) ∧
        clock s' = clock s ∧ refused s' = refused s ∧
        max_size_bytes s' = max_size_bytes s ∧
        (is_Some (files s !! metadata_file) → is_Some (files s' !! metadata_file)) ∧
        ∀ name,
          ((name ≠ metadata_file → files s' !! name = files s !! name) ∧
           metadata s' !! name = metadata s !! name) ∨
          (glob_match name = true ∧ is_Some (files s !! name) ∧
           files s' !! name = None ∧ metadata s' !! name = None).
Proof.
  unfold _cleanup_old_files, glob, get_metadata, get_max_size_bytes.
  unfold try_except, bind at 1 2 3.
  rewrite scan_fold. simpl.
  destruct (max_size_bytes s <? _).
  2: { exists s. repeat split; try done. by left. }
  set (found := List.filter _ _).
  set (l := sort_by_time _).
  destruct (evict_frame (sum_sizes found) (inject_Z (max_size_bytes s) * 0.8) l 0 s)
    as (s1 & r & He & Hc & Hr & Hm & Hf).
  rewrite (bind_return _ _ _ _ _ He). rewrite save_metadata_eq.
  exists (saved s1). split; [done|].
  rewrite saved_clock, saved_refused, saved_max_size_bytes.
  assert (∀ name, name ∈ entry_name <$> l → glob_match name = true) as Hglob.
  { intros name Hin. subst l. rewrite sort_by_time_perm in Hin.
    rewrite <- list_fmap_compose in Hin.
    by apply (glob_names_match (scandir (files s))). }
  repeat split; try done.
  - intros Hi. destruct (Hf metadata_file) as [[E _]|(Hin & _)].
    + apply saved_index_is_Some. by rewrite E.
    + apply Hglob in Hin. by rewrite glob_match_metadata_file in Hin.
  - intros name. rewrite saved_metadata.
    destruct (Hf name) as [[E1 E2]|(Hin & Hp & E1 & E2)].
    + left. split; [|done]. intros Hne. by rewrite saved_files_ne.
    + right. pose proof (Hglob name Hin) as Hg. repeat split; try done.
      rewrite saved_files_ne; [done|].
      intros ->. by rewrite glob_match_metadata_file in Hg.
Qed.

(** X8. Whatever happens in a [put], a file that is neither the entry file
    of the key, nor its temporary file, nor the index file is left as it
    was, unless it is an entry file that the eviction pass deleted, and
    then its record is gone with it; and no temporary file is left behind
    unless the system refuses to delete it. When the rename is not
    refused, the entry file of the key is as before, or holds the complete
    pickle of the value, or is gone, never a part of a pickle. When the
    rename is refused, the copy writes the entry file in place, and a copy
    that fails on the way leaves a part of the pickle in it. *)
Theorem put_frame (key : K) (value : V) (s : state) :
  let cache_path := _get_cache_path key in
  let temp_path := with_suffix ".tmp" cache_path in
  let s' := (put key value s).1 in
  (∀ name, name ≠ cache_path → name ≠ temp_path → name ≠ metadata_file →
     files s' !! name = files s !! name ∨
     (glob_match name = true ∧ files s' !! name = None ∧
      metadata s' !! name = None)) ∧
  (files s' !! cache_path = files s !! cache_path ∨
   files s' !! cache_path = None ∨
   (∃ data, pickle_dump value = Dumped data ∧
            files s' !! cache_path = Some (File data (clock s))) ∨
   (refused s SysRename cache_path = true ∧
    refused s SysCopy cache_path = true ∧
    ∃ data, pickle_dump value = Dumped data ∧
            files s' !! cache_path = Some (File (copy_part data) (clock s)))) ∧
  (refused s SysUnlink temp_path = false → files s' !! temp_path = None).
Proof.
  intros cache_path temp_path s'. subst s'.
  destruct (put_cases key value s)
    as [(s' & -> & _ & _ & Hframe & Htemp)
       |[(Hm & s' & data & Hd & -> & _ & _ & Hframe & Hp & Htemp)
        |(data & st & Hd & -> & Hfiles & _)]].
  - simpl. split; [|split; [|done]].
    + intros name _ Hne _. left. by apply Hframe.
    + left. apply Hframe. intros E. symmetry in E.
      by apply temp_path_ne_cache_path in E.
  - simpl. split; [|split; [|done]].
    + intros name Hne Hne' _. left. by apply Hframe.
    + fold cache_path in Hp. destruct (refused s SysCopy cache_path) eqn:Hcopy.
      * right. right. right. eauto.
      * right. right. left. eauto.
  - destruct (cleanup_frame st) as (s' & -> & _ & _ & _ & _ & Hf).
    simpl.
    assert (∀ name, name ≠ metadata_file →
              files st !! name
              = (<[cache_path := File data (clock s)]> (delete temp_path (files s))) !! name)
      as Hst.
    { intros name Hne. rewrite Hfiles. unfold stored. by rewrite saved_files_ne. }
    split; [|split].
    + intros name Hp Ht Hmeta.
      destruct (Hf name) as [[E _]|(Hg & _ & E1 & E2)].
      * left. rewrite E, Hst by done.
        by rewrite lookup_insert_ne, lookup_delete_ne.
      * right. done.
    + destruct (Hf cache_path) as [[E _]|(_ & _ & E & _)]; [|by right; left].
      right. right. left. exists data. split; [done|].
      rewrite E, Hst by apply cache_path_ne_metadata_file.
      apply lookup_insert_eq.
    + intros _.
      destruct (Hf temp_path) as [[E _]|(_ & _ & E & _)]; [|done].
      rewrite E, Hst by apply temp_path_ne_metadata_file.
      rewrite lookup_insert_ne by (intros ?; by eapply temp_path_ne_cache_path).
      apply lookup_delete_eq.
Qed.

(** ** The index and the directory agree *)

Lemma unlink_all_done (l : list (string * file)) :
  ∀ s s', unlink_all l s = (s', Return tt) →
          ∀ name, name ∈ l.*1 → files s' !! name = None.
Proof.
  induction l as [|nf l IH]; intros s s' Hrun name Hin.
  { by apply elem_of_nil in Hin. }
  simpl in Hrun. unfold bind, unlink in Hrun.
  destruct (refused s SysUnlink nf.1); [discriminate|].
  destruct (files s !! nf.1); [|discriminate].
  set (s1 := log _ _) in Hrun.
  destruct (decide (name ∈ l.*1)) as [Hl|Hl]; [by eapply IH|].
  rewrite fmap_cons in Hin. apply elem_of_cons in Hin as [->|?]; [|done].
  destruct (unlink_all_frame l s1) as (s2 & o & Hrun' & _ & _ & _ & _ & Hf).
  rewrite Hrun in Hrun'. injection Hrun' as <- <-.
  destruct (Hf nf.1) as [E|(_ & _ & E)]; [|done].
  rewrite E. subst s1. simpl. apply lookup_delete_eq.
Qed.

Lemma get_indexed (key : K) s : indexed s → indexed (get key s).1.
Proof.
  intros Hi.
  destruct (files s !! _get_cache_path key) as [f|] eqn:E.
  2: { by rewrite get_missing. }
  assert (indexed (discarded (_get_cache_path key) s)) as Hd.
  { unfold discarded. destruct (refused s SysUnlink _); [done|].
    intros name Hg. simpl.
    destruct (decide (name = _get_cache_path key)) as [->|Hne].
    - rewrite lookup_delete_eq. by intros [? ?].
    - rewrite !lookup_delete_ne by done. by apply Hi. }
  destruct (refused s SysOpenRead (_get_cache_path key)) eqn:Hr.
  { by rewrite (get_unreadable key s f) by auto. }
  destruct (pickle_load (content f)) as [v|] eqn:Hl.
  2: { by rewrite (get_unreadable key s f) by auto. }
  rewrite (get_hit key s f v) by auto. simpl.
  intros name Hg. rewrite saved_metadata, saved_files_ne.
  2: { intros ->. by rewrite glob_match_metadata_file in Hg. }
  simpl. intros Hf. destruct (decide (name = _get_cache_path key)) as [->|Hne].
  - rewrite lookup_insert_eq. eauto.
  - rewrite lookup_insert_ne by done. by apply Hi.
Qed.

Lemma get_backed (key : K) s : backed s → backed (get key s).1.
Proof.
  intros Hb.
  destruct (files s !! _get_cache_path key) as [f|] eqn:E.
  2: { by rewrite get_missing. }
  assert (backed (discarded (_get_cache_path key) s)) as Hd.
  { unfold discarded. destruct (refused s SysUnlink _); [done|].
    intros name. simpl.
    destruct (decide (name = _get_cache_path key)) as [->|Hne].
    - rewrite lookup_delete_eq. by intros [? ?].
    - rewrite !lookup_delete_ne by done. by apply Hb. }
  destruct (refused s SysOpenRead (_get_cache_path key)) eqn:Hr.
  { by rewrite (get_unreadable key s f) by auto. }
  destruct (pickle_load (content f)) as [v|] eqn:Hl.
  2: { by rewrite (get_unreadable key s f) by auto. }
  rewrite (get_hit key s f v) by auto. simpl.
  intros name. rewrite saved_metadata. simpl.
  destruct (decide (name = _get_cache_path key)) as [->|Hne].
  - intros _. split; [apply glob_match_cache_key|].
    rewrite saved_files_ne by apply cache_path_ne_metadata_file. simpl. eauto.
  - rewrite lookup_insert_ne by done. intros [Hg Hf]%Hb. split; [done|].
    rewrite saved_files_ne; [done|].
    intros ->. by rewrite glob_match_metadata_file in Hg.
Qed.

Lemma stored_indexed (key : K) (data : bytes) s : indexed s → indexed (stored key data s).
Proof.
  intros Hi name Hg. rewrite stored_record. unfold stored.
  rewrite saved_files_ne.
  2: { intros ->. by rewrite glob_match_metadata_file in Hg. }
  simpl. destruct (decide (name = _get_cache_path key)) as [->|Hne]; [eauto|].
  rewrite lookup_insert_ne by done. intros Hf. apply Hi; [done|].
  destruct (decide (name = with_suffix ".tmp" (_get_cache_path key))) as [->|Hne'].
  - rewrite lookup_delete_eq in Hf. by destruct Hf.
  - by rewrite lookup_delete_ne in Hf.
Qed.

Lemma stored_backed (key : K) (data : bytes) s : backed s → backed (stored key data s).
Proof.
  intros Hb name. rewrite stored_record. unfold stored.
  destruct (decide (name = _get_cache_path key)) as [->|Hne].
  - intros _. split; [apply glob_match_cache_key|].
    rewrite saved_files_ne by apply cache_path_ne_metadata_file.
    simpl. rewrite lookup_insert_eq. eauto.
  - intros [Hg Hf]%Hb. split; [done|].
    rewrite saved_files_ne.
    2: { intros ->. by rewrite glob_match_metadata_file in Hg. }
    simpl. rewrite lookup_insert_ne by done. rewrite lookup_delete_ne; [done|].
    intros <-. by rewrite glob_match_temp_path in Hg.
Qed.

Lemma cleanup_indexed s : indexed s → indexed (_cleanup_old_files s).1.
Proof.
  intros Hi. destruct (cleanup_frame s) as (s' & -> & _ & _ & _ & _ & Hf).
  simpl. intros name Hg Hfile.
  destruct (Hf name) as [[E1 E2]|(_ & _ & E & _)].
  - rewrite E2. apply Hi; [done|]. rewrite <- E1; [done|].
    intros ->. by rewrite glob_match_metadata_file in Hg.
  - rewrite E in Hfile. by destruct Hfile.
Qed.

Lemma cleanup_backed s : backed s → backed (_cleanup_old_files s).1.
Proof.
  intros Hb. destruct (cleanup_frame s) as (s' & -> & _ & _ & _ & _ & Hf).
  simpl. intros name Hrec.
  destruct (Hf name) as [[E1 E2]|(_ & _ & _ & E)].
  - rewrite E2 in Hrec. apply Hb in Hrec as [Hg Hfile]. split; [done|].
    rewrite E1; [done|]. intros ->. by rewrite glob_match_metadata_file in Hg.
  - rewrite E in Hrec. by destruct Hrec.
Qed.

Lemma indexed_same (s1 s2 : state) :
  files s1 = files s2 → metadata s1 = metadata s2 → indexed s2 → indexed s1.
Proof. unfold indexed. by intros -> ->. Qed.

Lemma backed_same (s1 s2 : state) :
  files s1 = files s2 → metadata s1 = metadata s2 → backed s2 → backed s1.
Proof. unfold backed. by intros -> ->. Qed.

Lemma put_indexed (key : K) (value : V) s :
  refused s SysRename (_get_cache_path key) = false →
  indexed s → indexed (put key value s).1.
Proof.
  intros Hrename Hi.
  destruct (put_cases key value s)
    as [(s' & -> & Hm & _ & Hf & _)
       |[(Hm & _)
        |(data & st & _ & -> & Hfiles & Hmeta & _)]].
  - simpl. intros name Hg. rewrite Hm, Hf; [by apply Hi|].
    intros ->. by rewrite glob_match_temp_path in Hg.
  - congruence.
  - apply cleanup_indexed.
    eapply indexed_same; [exact Hfiles|exact Hmeta|]. by apply stored_indexed.
Qed.

Lemma put_backed (key : K) (value : V) s : backed s → backed (put key value s).1.
Proof.
  intros Hb.
  destruct (put_cases key value s)
    as [(s' & -> & Hm & _ & Hf & _)
       |[(_ & s' & data & _ & -> & Hm & _ & Hf & Hp & _)
        |(data & st & _ & -> & Hfiles & Hmeta & _)]].
  - simpl. intros name. rewrite Hm. intros [Hg Hfile]%Hb. split; [done|].
    rewrite Hf; [done|]. intros ->. by rewrite glob_match_temp_path in Hg.
  - simpl. intros name. rewrite Hm. intros [Hg Hfile]%Hb. split; [done|].
    destruct (decide (name = _get_cache_path key)) as [->|Hne].
    + rewrite Hp. eauto.
    + rewrite Hf; [done| |done]. intros ->. by rewrite glob_match_temp_path in Hg.
  - apply cleanup_backed.
    eapply backed_same; [exact Hfiles|exact Hmeta|]. by apply stored_backed.
Qed.

Lemma clear_indexed s :
  (∀ m : gmap string file, scandir m ≡ₚ map_to_list m) →
  indexed s → indexed (clear s).1.
Proof.
  intros Hscan Hi. rewrite clear_eq. set (found := List.filter _ _).
  destruct (unlink_all_frame found s) as (s1 & o & Hu & Hm & _ & _ & _ & Hf).
  rewrite Hu. destruct o as [[]|]; simpl.
  - intros name Hg. rewrite saved_files_ne.
    2: { intros ->. by rewrite glob_match_metadata_file in Hg. }
    simpl. intros [f Hfile].
    destruct (Hf name) as [E|(_ & _ & E)]; [|congruence].
    rewrite E in Hfile.
    rewrite (unlink_all_done found s s1 Hu name) in E; [congruence|].
    apply list_elem_of_fmap. exists (name, f). split; [done|].
    by apply (glob_found s Hscan).
  - intros name Hg [f Hfile]. rewrite Hm. apply Hi; [done|].
    destruct (Hf name) as [E|(_ & _ & E)]; [|congruence].
    rewrite <- E. eauto.
Qed.

(** No operation changes what the system refuses. *)

Lemma keeps_ret {A} (a : A) : keeps_refused (ret a).
Proof. done. Qed.

Lemma keeps_raise {A} : keeps_refused (@raise A).
Proof. done. Qed.

Lemma keeps_bind {A B} (c : M A) (k : A → M B) :
  keeps_refused c → (∀ a, keeps_refused (k a)) → keeps_refused (bind c k).
Proof.
  intros Hc Hk s. unfold bind. specialize (Hc s).
  destruct (c s) as [s1 [a|]]; simpl in *; [|done].
  by rewrite Hk.
Qed.

Lemma keeps_try {A} (body handler : M A) :
  keeps_refused body → keeps_refused handler → keeps_refused (try_except body handler).
Proof.
  intros Hb Hh s. unfold try_except. specialize (Hb s).
  destruct (body s) as [s1 [a|]]; simpl in *; [done|].
  by rewrite Hh.
Qed.

Lemma keeps_path_exists p : keeps_refused (path_exists p).
Proof. done. Qed.

Lemma keeps_open_wb p : keeps_refused (open_wb p).
Proof. intros s. unfold open_wb. by destruct (refused s SysOpenWrite p). Qed.

Lemma keeps_write_bytes p data : keeps_refused (write_bytes p data).
Proof. done. Qed.

Lemma keeps_unlink p : keeps_refused (unlink p).
Proof.
  intros s. unfold unlink. destruct (refused s SysUnlink p); [done|].
  by destruct (files s !! p).
Qed.

Lemma keeps_os_rename src dst : keeps_refused (os_rename src dst).
Proof.
  intros s. unfold os_rename. destruct (refused s SysRename dst); [done|].
  by destruct (files s !! src).
Qed.

Lemma keeps_copy2 src dst : keeps_refused (copy2 src dst).
Proof.
  intros s. unfold copy2. destruct (bool_decide (src = dst)); [done|].
  destruct (refused s SysOpenRead src); [done|].
  destruct (files s !! src); [|done].
  destruct (refused s SysOpenWrite dst); [done|].
  by destruct (refused s SysCopy dst).
Qed.

Lemma keeps_shutil_move src dst : keeps_refused (shutil_move src dst).
Proof.
  apply keeps_try; [apply keeps_os_rename|].
  apply keeps_bind; [apply keeps_copy2|intros _; apply keeps_unlink].
Qed.

Lemma keeps_save_metadata : keeps_refused _save_metadata.
Proof. intros s. rewrite save_metadata_eq. apply saved_refused. Qed.

Lemma keeps_cleanup : keeps_refused _cleanup_old_files.
Proof. intros s. by destruct (cleanup_frame s) as (s' & -> & _ & ? & _). Qed.

Lemma keeps_put (key : K) (value : V) : keeps_refused (put key value).
Proof.
  apply keeps_try.
  - unfold put_body.
    apply keeps_bind; [apply keeps_open_wb|intros _].
    apply keeps_bind.
    { unfold dump_value. destruct (pickle_dump value).
      - apply keeps_write_bytes.
      - apply keeps_bind; [apply keeps_write_bytes|intros; apply keeps_raise]. }
    intros _. apply keeps_bind; [apply keeps_shutil_move|intros _].
    apply keeps_bind; [done|intros t].
    apply keeps_bind; [done|intros _].
    apply keeps_bind; [apply keeps_save_metadata|intros _].
    apply keeps_cleanup.
  - unfold put_handler.
    apply keeps_bind; [apply keeps_path_exists|intros [|]].
    + apply keeps_try; [apply keeps_unlink|done].
    + done.
Qed.

Lemma keeps_get (key : K) : keeps_refused (get key).
Proof.
  intros s.
  destruct (files s !! _get_cache_path key) as [f|] eqn:E.
  2: { by rewrite get_missing. }
  destruct (refused s SysOpenRead (_get_cache_path key)) eqn:Hr.
  { rewrite (get_unreadable key s f) by auto. apply discarded_refused. }
  destruct (pickle_load (content f)) as [v|] eqn:Hl.
  2: { rewrite (get_unreadable key s f) by auto. apply discarded_refused. }
  rewrite (get_hit key s f v) by auto. simpl. by rewrite saved_refused.
Qed.

Lemma keeps_clear : keeps_refused clear.
Proof.
  intros s. rewrite clear_eq. set (found := List.filter _ _).
  destruct (unlink_all_frame found s) as (s1 & o & -> & _ & _ & Hr & _).
  destruct o as [[]|]; simpl; [|done]. by rewrite saved_refused.
Qed.

Lemma step_refused (s : state) (c : Z * op) : refused (step s c) = refused s.
Proof.
  unfold step. destruct c as [t [key|key value|key| |]]; simpl.
  - unfold bind. pose proof (keeps_get key (set_clock t s)) as H.
    by destruct (get key (set_clock t s)) as [s' [r|]].
  - apply (keeps_put key value (set_clock t s)).
  - done.
  - apply (keeps_clear (set_clock t s)).
  - done.
Qed.

(** X9. If every entry file has a record before a run of public calls, then
    every entry file has a record after it, whatever the system refused on
    the way, renames apart: a [put] whose rename is refused writes the
    entry file by a copy, and when it fails after that copy it leaves the
    file without a record. *)
Theorem every_entry_file_stays_indexed (calls : list (Z * op)) (s : state) :
  (∀ m : gmap string file, scandir m ≡ₚ map_to_list m) →
  (∀ name, glob_match name = true → refused s SysRename name = false) →
  indexed s →
  indexed (run calls s).
Proof.
  intros Hscan. revert s.
  induction calls as [|[t o] calls IH]; intros s Hrename Hi; [done|].
  simpl. apply IH.
  { intros name Hg. rewrite step_refused. auto. }
  unfold step. simpl.
  assert (indexed (set_clock t s)) as Hi' by done.
  destruct o as [key|key value|key| |]; simpl.
  - unfold bind. pose proof (get_indexed key (set_clock t s) Hi') as H.
    by destruct (get key (set_clock t s)) as [s' [r|]].
  - apply put_indexed; [|done]. simpl. apply Hrename, glob_match_cache_key.
  - done.
  - by apply clear_indexed.
  - done.
Qed.

Lemma clear_backed s :
  (∀ m : gmap string file, scandir m ≡ₚ map_to_list m) →
  (∀ name, glob_match name = true → refused s SysUnlink name = false) →
  backed (clear s).1.
Proof.
  intros Hscan Hallow.
  destruct (clear_empties s Hscan Hallow) as (s' & -> & _ & Hm & _).
  simpl. intros name. rewrite Hm, lookup_empty. by intros [? ?].
Qed.

(** X10. If every record names an entry file that is in the directory
    before a run of public calls, the same holds after it, provided the run
    has no [clear] or the system refuses no deletion of an entry file: a
    [clear] that gives up half way leaves records of files it deleted. *)
Theorem every_record_stays_backed (calls : list (Z * op)) (s : state) :
  (∀ m : gmap string file, scandir m ≡ₚ map_to_list m) →
  Forall (λ c, c.2 ≠ OpClear) calls ∨
  (∀ name, glob_match name = true → refused s SysUnlink name = false) →
  backed s →
  backed (run calls s).
Proof.
  intros Hscan. revert s.
  induction calls as [|[t o] calls IH]; intros s Hor Hb; [done|].
  simpl. apply IH.
  { destruct Hor as [Hno|Hallow].
    - left. by apply Forall_cons in Hno as [_ ?].
    - right. intros name Hg. rewrite step_refused. auto. }
  unfold step. simpl.
  assert (backed (set_clock t s)) as Hb' by done.
  destruct o as [key|key value|key| |]; simpl.
  - unfold bind. pose proof (get_backed key (set_clock t s) Hb') as H.
    by destruct (get key (set_clock t s)) as [s' [r|]].
  - by apply put_backed.
  - done.
  - destruct Hor as [Hno|Hallow].
    + apply Forall_cons in Hno as [Hne _]. by simpl in Hne.
    + by apply clear_backed.
  - done.
Qed.

(** ** The size of the cache after an eviction pass *)

Lemma sum_sizes_cons (x : string * file) (l : list (string * file)) :
  sum_sizes (x :: l) = st_size x.2 + sum_sizes l.
Proof. reflexivity. Qed.

Lemma sum_sizes_filter_perm (g : string * file → bool) (l l' : list (string * file)) :
  l ≡ₚ l' → sum_sizes (List.filter g l) = sum_sizes (List.filter g l').
Proof.
  induction 1 as [|x l l' _ IH|x y l|l1 l2 l3 _ IH1 _ IH2]; cbn [List.filter].
  - reflexivity.
  - destruct (g x); [|exact IH]. rewrite !sum_sizes_cons. by rewrite IH.
  - destruct (g x), (g y); rewrite ?sum_sizes_cons; lia.
  - congruence.
Qed.

Lemma sum_sizes_nonneg (l : list (string * file)) : 0 ≤ sum_sizes l.
Proof.
  induction l as [|nf l IH]; simpl; [done|]. unfold st_size. lia.
Qed.

Lemma entries_size_scandir (m : gmap string file) :
  (∀ m : gmap string file, scandir m ≡ₚ map_to_list m) →
  sum_sizes (List.filter (λ nf, glob_match nf.1) (scandir m)) = entries_size m.
Proof. intros Hscan. by apply sum_sizes_filter_perm. Qed.

Lemma entries_size_delete (m : gmap string file) (name : string) (f : file) :
  m !! name = Some f → glob_match name = true →
  entries_size (delete name m) = entries_size m - st_size f.
Proof.
  intros Hf Hg. unfold entries_size.
  rewrite <- (sum_sizes_filter_perm _ _ _ (map_to_list_delete m name f Hf)).
  simpl. rewrite Hg. simpl. lia.
Qed.

Lemma entries_size_insert_other (m : gmap string file) (name : string) (f : file) :
  glob_match name = false →
  entries_size (<[name := f]> m) = entries_size m.
Proof.
  intros Hg. unfold entries_size.
  rewrite <- (insert_delete_eq m name f).
  rewrite (sum_sizes_filter_perm _ _ _
             (map_to_list_insert (delete name m) name f (lookup_delete_eq m name))).
  simpl. rewrite Hg.
  destruct (m !! name) as [f0|] eqn:E.
  - rewrite <- (sum_sizes_filter_perm _ _ _ (map_to_list_delete m name f0 E)).
    simpl. by rewrite Hg.
  - by rewrite delete_id.
Qed.

Lemma entries_size_saved s : entries_size (files (saved s)) = entries_size (files s).
Proof.
  unfold saved. destruct (refused s SysOpenWrite metadata_file); [done|].
  simpl. apply entries_size_insert_other, glob_match_metadata_file.
Qed.

Lemma freed_le ref (l : list entry) :
  Forall (λ e, 0 ≤ entry_size e) l → 0 ≤ freed ref l.
Proof.
  induction 1 as [|e l He _ IH]; [done|].
  rewrite freed_cons. unfold freed at 1. simpl.
  destruct (ref SysUnlink (entry_name e)); lia.
Qed.

(** The entries [l] are entry files of [s], each listed once with its
    size. *)
Lemma discard_all_size (l : list entry) :
  ∀ s, NoDup (entry_name <$> l) →
       Forall (λ e, glob_match (entry_name e) = true ∧
                    ∃ f, files s !! entry_name e = Some f ∧ st_size f = entry_size e) l →
       entries_size (files (discard_all l s))
       = entries_size (files s) - freed (refused s) l.
Proof.
  induction l as [|e l IH]; intros s Hnd Hall.
  { unfold freed. simpl. lia. }
  rewrite fmap_cons in Hnd. apply NoDup_cons in Hnd as [Hnotin Hnd].
  apply Forall_cons in Hall as [(Hg & f & Hf & Hsz) Hall].
  change (discard_all (e :: l) s) with (discard_all l (discarded (entry_name e) s)).
  rewrite IH, discarded_refused, freed_cons; [|done|].
  - unfold discarded, freed at 2. simpl.
    destruct (refused s SysUnlink (entry_name e)); [lia|].
    simpl. rewrite (entries_size_delete _ _ f) by done. lia.
  - apply Forall_forall. intros e' He'.
    eapply Forall_forall in Hall as (Hg' & f' & Hf' & Hsz'); [|exact He'].
    split; [done|]. exists f'. split; [|done].
    rewrite discarded_files_ne; [done|].
    intros Heq. apply Hnotin. rewrite <- Heq. apply list_elem_of_fmap. eauto.
Qed.

Lemma freed_perm ref (l l' : list entry) : l ≡ₚ l' → freed ref l = freed ref l'.
Proof.
  induction 1 as [|x l l' _ IH|x y l|l1 l2 l3 _ IH1 _ IH2].
  - done.
  - by rewrite (freed_cons _ x l), (freed_cons _ x l'), IH.
  - rewrite (freed_cons _ y (x :: l)), (freed_cons _ x l),
      (freed_cons _ x (y :: l)), (freed_cons _ y l). lia.
  - congruence.
Qed.

Lemma freed_all (s : state) (found : list (string * file)) :
  (∀ name, glob_match name = true → refused s SysUnlink name = false) →
  Forall (λ nf, glob_match nf.1 = true) found →
  freed (refused s) (entry_of (metadata s) <$> found) = sum_sizes found.
Proof.
  intros Hallow. induction 1 as [|nf l Hg _ IH]; [done|].
  rewrite fmap_cons, freed_cons, IH. unfold freed. simpl.
  unfold entry_name, entry_size. simpl. rewrite (Hallow _ Hg). lia.
Qed.

(** What an eviction pass over the limit does, with the facts about the
    sorted list that the statements below need. *)
Lemma cleanup_over_limit (s : state) :
  (∀ m : gmap string file, scandir m ≡ₚ map_to_list m) →
  max_size_bytes s < entries_size (files s) →
  ∃ (sorted : list entry) (n : nat),
    sorted ≡ₚ entry_of (metadata s)
               <$> List.filter (λ nf, glob_match nf.1) (scandir (files s)) ∧
    StronglySorted (λ a b, entry_time a ≤ entry_time b) sorted ∧
    NoDup (entry_name <$> sorted) ∧
    Forall (λ e, glob_match (entry_name e) = true ∧
                 ∃ f, files s !! entry_name e = Some f ∧
                      st_size f = entry_size e ∧
                      recency s (entry_name e) f = entry_time e) sorted ∧
    (∀ k, (k < n)%nat →
       ¬ 5 * (entries_size (files s) - freed (refused s) (take k sorted))
         ≤ 4 * max_size_bytes s) ∧
    (n = length sorted ∨
     5 * (entries_size (files s) - freed (refused s) (take n sorted))
     ≤ 4 * max_size_bytes s) ∧
    _cleanup_old_files s = (saved (discard_all (take n sorted) s), Return tt).
Proof.
  intros Hscan Hover.
  destruct (glob_found s Hscan) as [Hnd Hfound].
  set (found := List.filter _ _) in *.
  assert (sum_sizes found = entries_size (files s)) as Htotal
    by by apply entries_size_scandir.
  set (sorted := sort_by_time (entry_of (metadata s) <$> found)).
  assert (sorted ≡ₚ entry_of (metadata s) <$> found) as Hperm
    by apply sort_by_time_perm.
  assert (NoDup (entry_name <$> sorted)) as Hnd'.
  { rewrite Hperm, <- list_fmap_compose. exact Hnd. }
  assert (Forall (λ e, glob_match (entry_name e) = true ∧
                 ∃ f, files s !! entry_name e = Some f ∧
                      st_size f = entry_size e ∧
                      recency s (entry_name e) f = entry_time e) sorted) as Hall.
  { rewrite Hperm. apply Forall_fmap, Forall_forall.
    intros [name f] [Hf Hg]%Hfound. simpl. split; [done|]. by exists f. }
  destruct (evict_spec (entries_size (files s)) (inject_Z (max_size_bytes s) * 0.8)
              sorted 0 s Hnd')
    as (n & Hn & Hbefore & Hstop & Hev).
  { eapply Forall_impl; [exact Hall|]. simpl. intros e (_ & f & -> & _). eauto. }
  exists sorted, n. repeat split; try done.
  - apply sort_by_time_sorted.
  - intros k Hk Hq%target_reached_iff%Qle_bool_iff.
    specialize (Hbefore k Hk). rewrite Z.add_0_l in Hbefore. congruence.
  - destruct Hstop as [?|Hq]; [by left|right].
    rewrite Z.add_0_l in Hq. by apply target_reached_iff, Qle_bool_iff.
  - unfold _cleanup_old_files, glob, get_metadata, get_max_size_bytes.
    unfold try_except, bind at 1 2 3. rewrite scan_fold. simpl.
    fold found. rewrite Htotal, Z.add_0_l.
    destruct (Z.ltb_spec (max_size_bytes s) (entries_size (files s))); [|lia].
    change (sort_by_time _) with sorted.
    rewrite (bind_return _ _ _ _ _ Hev). by rewrite save_metadata_eq.
Qed.

Lemma cleanup_under_limit (s : state) :
  (∀ m : gmap string file, scandir m ≡ₚ map_to_list m) →
  entries_size (files s) ≤ max_size_bytes s →
  _cleanup_old_files s = (s, Return tt).
Proof.
  intros Hscan Hle.
  unfold _cleanup_old_files, glob, get_metadata, get_max_size_bytes.
  unfold try_except, bind at 1 2 3. rewrite scan_fold. simpl.
  rewrite (entries_size_scandir _ Hscan), Z.add_0_l.
  by destruct (Z.ltb_spec (max_size_bytes s) (entries_size (files s))); [lia|].
Qed.

(** X11. An eviction pass never makes the entry files take more bytes.
    When the limit is not negative and the system refuses no deletion of
    an entry file, the entry files take at most [max_size_bytes] after the
    pass, and at most four fifths of it when the pass found them over the
    limit; [get_cache_info] then reports that size. The limit is below
    2^49 bytes: there the floating-point product [max_size_bytes * 0.8] of
    the source decides the test of the loop as the exact product does. *)
Theorem eviction_brings_the_size_under_the_limit (s : state) :
  (∀ m : gmap string file, scandir m ≡ₚ map_to_list m) →
  Z.abs (max_size_bytes s) < 2 ^ 49 →
  let s' := (_cleanup_old_files s).1 in
  entries_size (files s') ≤ entries_size (files s) ∧
  (0 ≤ max_size_bytes s →
   (∀ name, glob_match name = true → refused s SysUnlink name = false) →
   entries_size (files s') ≤ max_size_bytes s ∧
   (max_size_bytes s < entries_size (files s) →
    5 * entries_size (files s') ≤ 4 * max_size_bytes s) ∧
   ∃ info, get_cache_info s' = (s', Return info) ∧
           (size_mb info == inject_Z (entries_size (files s')) / inject_Z (1024 * 1024))%Q).
Proof.
  intros Hscan _ s'. subst s'.
  destruct (Z.le_gt_cases (entries_size (files s)) (max_size_bytes s)) as [Hle|Hover].
  { rewrite (cleanup_under_limit s Hscan Hle). simpl. split; [done|].
    intros _ _. split; [done|]. split; [lia|].
    rewrite get_cache_info_eq. eexists. split; [done|]. simpl.
    by rewrite (entries_size_scandir _ Hscan). }
  destruct (cleanup_over_limit s Hscan Hover)
    as (sorted & n & Hperm & Hsorted & Hnd & Hall & Hbefore & Hstop & ->).
  simpl. rewrite entries_size_saved.
  assert (entries_size (files (discard_all (take n sorted) s))
          = entries_size (files s) - freed (refused s) (take n sorted)) as Hsize.
  { apply discard_all_size.
    - rewrite fmap_take. by eapply sublist_NoDup; [|apply sublist_take].
    - apply Forall_take. eapply Forall_impl; [exact Hall|].
      simpl. intros e (Hg & f & Hf & Hsz & _). eauto. }
  rewrite Hsize.
  assert (0 ≤ freed (refused s) (take n sorted)) as Hfreed.
  { apply freed_le, Forall_take. eapply Forall_impl; [exact Hall|].
    simpl. intros e (_ & f & _ & <- & _). unfold st_size. lia. }
  split; [lia|]. intros Hlimit Hallow.
  assert (5 * (entries_size (files s) - freed (refused s) (take n sorted))
          ≤ 4 * max_size_bytes s) as Htarget.
  { destruct Hstop as [->|?]; [|done].
    rewrite firstn_all, (freed_perm _ _ _ Hperm), freed_all.
    - rewrite (entries_size_scandir _ Hscan). lia.
    - done.
    - apply Forall_forall. intros nf [_ ?]%list_elem_of_In%filter_In. done. }
  split; [lia|]. split; [done|].
  rewrite get_cache_info_eq. eexists. split; [done|]. simpl.
  by rewrite (entries_size_scandir _ Hscan), entries_size_saved, Hsize.
Qed.

(** ** Which entries an eviction pass deletes *)

Lemma deleted_names_elem ref (l : list entry) (name : string) :
  name ∈ deleted_names ref l ↔
  ∃ e, e ∈ l ∧ entry_name e = name ∧ ref SysUnlink name = false.
Proof.
  unfold deleted_names. rewrite list_elem_of_fmap. split.
  - intros (e & -> & [Hin Hr%negb_true_iff]%list_elem_of_In%filter_In).
    exists e. by rewrite list_elem_of_In.
  - intros (e & Hin & <- & Hr). exists e. split; [done|].
    apply list_elem_of_In, filter_In. rewrite <- list_elem_of_In.
    by rewrite Hr.
Qed.

Lemma sorted_app_elem (l1 l2 : list entry) (x1 x2 : entry) :
  StronglySorted (λ a b, entry_time a ≤ entry_time b) (l1 ++ l2) →
  x1 ∈ l1 → x2 ∈ l2 → entry_time x1 ≤ entry_time x2.
Proof.
  induction l1 as [|y l1 IH]; simpl; intros Hs H1 H2.
  { by apply elem_of_nil in H1. }
  apply StronglySorted_inv in Hs as [Hs Hy].
  apply elem_of_cons in H1 as [->|H1]; [|by apply IH].
  eapply Forall_forall in Hy; [exact Hy|]. apply elem_of_app. by right.
Qed.

(** X12. An eviction pass deletes the least recently used entries first: an
    entry file that the pass deleted is never more recent than an entry
    file that it kept although the system would have let it go. Recency is
    the time stamp of the record, or the modification time of the file when
    there is no record. *)
Theorem eviction_deletes_the_oldest (s : state) (d k : string) (fd fk : file) :
  (∀ m : gmap string file, scandir m ≡ₚ map_to_list m) →
  glob_match d = true → files s !! d = Some fd →
  files (_cleanup_old_files s).1 !! d = None →
  glob_match k = true → files s !! k = Some fk →
  is_Some (files (_cleanup_old_files s).1 !! k) →
  refused s SysUnlink k = false →
  recency s d fd ≤ recency s k fk.
Proof.
  intros Hscan Hgd Hfd Hgone Hgk Hfk Hkept Hrk.
  destruct (Z.le_gt_cases (entries_size (files s)) (max_size_bytes s)) as [Hle|Hover].
  { rewrite (cleanup_under_limit s Hscan Hle) in Hgone. simpl in Hgone. congruence. }
  destruct (cleanup_over_limit s Hscan Hover)
    as (sorted & n & Hperm & Hsorted & Hnd & Hall & _ & _ & Hrun).
  rewrite Hrun in Hgone, Hkept. simpl in Hgone, Hkept.
  rewrite saved_files_ne, discard_all_files in Hgone, Hkept
    by (intros ->; by rewrite glob_match_metadata_file in *).
  assert (d ∈ deleted_names (refused s) (take n sorted)) as Hd.
  { destruct (decide (d ∈ deleted_names (refused s) (take n sorted))) as [?|Hno];
      [done|].
    rewrite bool_decide_eq_false_2 in Hgone by done. congruence. }
  assert (k ∉ deleted_names (refused s) (take n sorted)) as Hk.
  { intros Hyes. rewrite bool_decide_eq_true_2 in Hkept by done.
    by destruct Hkept. }
  apply deleted_names_elem in Hd as (ed & Hed & Hnd' & _).
  assert (ek_in : entry_of (metadata s) (k, fk) ∈ sorted).
  { rewrite Hperm. apply list_elem_of_fmap. exists (k, fk). split; [done|].
    by apply (glob_found s Hscan). }
  rewrite <- (take_drop n sorted) in ek_in, Hsorted.
  apply elem_of_app in ek_in as [Hin|Hin].
  { exfalso. apply Hk, deleted_names_elem. eauto. }
  pose proof (sorted_app_elem _ _ _ _ Hsorted Hed Hin) as Hle.
  simpl in Hle.
  assert (ed ∈ sorted) as Hed' by (by eapply subseteq_take).
  eapply Forall_forall in Hall as (_ & f & Hf & _ & Hrec); [|exact Hed'].
  rewrite Hnd' in Hf, Hrec. rewrite Hfd in Hf. injection Hf as <-.
  rewrite Hrec. exact Hle.
Qed.

(** ** A value that fits is kept by its own [put] *)


Lemma stored_refused (key : K) (data : bytes) s : refused (stored key data s) = refused s.
Proof. unfold stored. by rewrite saved_refused. Qed.

Lemma stored_clock (key : K) (data : bytes) s : clock (stored key data s) = clock s.
Proof. unfold stored. by rewrite saved_clock. Qed.

Lemma stored_max_size_bytes (key : K) (data : bytes) s :
  max_size_bytes (stored key data s) = max_size_bytes s.
Proof. unfold stored. by rewrite saved_max_size_bytes. Qed.

Lemma stored_entry (key : K) (data : bytes) s :
  files (stored key data s) !! _get_cache_path key = Some (File data (clock s)).
Proof.
  unfold stored. rewrite saved_files_ne by apply cache_path_ne_metadata_file.
  simpl. apply lookup_insert_eq.
Qed.

Lemma stored_other_entry (key : K) (data : bytes) s name :
  glob_match name = true → name ≠ _get_cache_path key →
  files (stored key data s) !! name = files s !! name.
Proof.
  intros Hg Hne. unfold stored. rewrite saved_files_ne.
  2: { intros ->. by rewrite glob_match_metadata_file in Hg. }
  simpl. rewrite lookup_insert_ne by done. apply lookup_delete_ne.
  intros <-. by rewrite glob_match_temp_path in Hg.
Qed.



(** ** A [put] that stays within the limit *)

Lemma entries_size_delete_other (m : gmap string file) (name : string) :
  glob_match name = false → entries_size (delete name m) = entries_size m.
Proof.
  intros Hg. destruct (m !! name) as [f|] eqn:E; [|by rewrite delete_id].
  unfold entries_size.
  rewrite <- (sum_sizes_filter_perm _ _ _ (map_to_list_delete m name f E)).
  cbn [List.filter]. simpl. by rewrite Hg.
Qed.

Lemma entries_size_delete_le (m : gmap string file) (name : string) :
  entries_size (delete name m) ≤ entries_size m.
Proof.
  destruct (glob_match name) eqn:Hg; [|by rewrite entries_size_delete_other].
  destruct (m !! name) as [f|] eqn:E; [|by rewrite delete_id].
  rewrite (entries_size_delete m name f) by done. unfold st_size. lia.
Qed.

Lemma entries_size_insert_entry (m : gmap string file) (name : string) (f : file) :
  glob_match name = true →
  entries_size (<[name := f]> m) = entries_size (delete name m) + st_size f.
Proof.
  intros Hg. unfold entries_size.
  rewrite <- (insert_delete_eq m name f).
  rewrite (sum_sizes_filter_perm _ _ _
             (map_to_list_insert (delete name m) name f (lookup_delete_eq m name))).
  cbn [List.filter]. simpl. rewrite Hg, sum_sizes_cons. simpl. lia.
Qed.

Lemma entries_size_stored (key : K) (data : bytes) s :
  entries_size (files (stored key data s))
  ≤ entries_size (files s) + Z.of_nat (length data).
Proof.
  unfold stored. rewrite entries_size_saved. simpl.
  rewrite entries_size_insert_entry by apply glob_match_cache_key.
  pose proof (entries_size_delete_le
                (delete (with_suffix ".tmp" (_get_cache_path key)) (files s))
                (_get_cache_path key)).
  rewrite (entries_size_delete_other (files s)) in H by apply glob_match_temp_path.
  unfold st_size. simpl. lia.
Qed.

(** X14. A [put] that goes through while the entry files and the new
    pickle together stay within the limit evicts nothing: every other
    entry file and every other record is as before, the entry file of the
    key holds the pickle, its record bears the time of the call, and the
    only mutations are the write and the rename of the temporary file and
    the write of the index. *)
Theorem put_within_the_limit_evicts_nothing
    (key : K) (value : V) (data : bytes) (s : state) :
  (∀ m : gmap string file, scandir m ≡ₚ map_to_list m) →
  refused s SysOpenWrite (with_suffix ".tmp" (_get_cache_path key)) = false →
  pickle_dump value = Dumped data →
  refused s SysRename (_get_cache_path key) = false →
  entries_size (files s) + Z.of_nat (length data) ≤ max_size_bytes s →
  ∃ s', put key value s = (s', Return tt) ∧
        (∀ name, glob_match name = true → name ≠ _get_cache_path key →
                 files s' !! name = files s !! name) ∧
        (∀ name, name ≠ _get_cache_path key →
                 metadata s' !! name = metadata s !! name) ∧
        files s' !! _get_cache_path key = Some (File data (clock s)) ∧
        metadata s' !! _get_cache_path key = Some (clock s) ∧
        ∃ log_end,
          trace s' = trace s
                     ++ [EvWrite (with_suffix ".tmp" (_get_cache_path key));
                         EvRename (with_suffix ".tmp" (_get_cache_path key))
                                  (_get_cache_path key)]
                     ++ log_end ∧
          (log_end = [] ∨ log_end = [EvWrite metadata_file]).
Proof.
  intros Hscan Ho Hd Hm Hroom.
  exists (stored key data s). split.
  { rewrite (put_stores key value data s Ho Hd Hm).
    apply cleanup_under_limit; [done|].
    rewrite stored_max_size_bytes.
    pose proof (entries_size_stored key data s). lia. }
  split; [intros name Hg Hne; by apply stored_other_entry|].
  split.
  { intros name Hne. rewrite stored_record. by destruct (decide _). }
  split; [apply stored_entry|].
  split.
  { rewrite stored_record. by destruct (decide _). }
  unfold stored, saved. simpl.
  destruct (refused s SysOpenWrite metadata_file); simpl.
  - exists []. split; [|by left]. by rewrite <- app_assoc.
  - exists [EvWrite metadata_file]. split; [|by right].
    by rewrite <- !app_assoc.
Qed.

(** ** Files that do not belong to the cache *)

Lemma run_op_no_new_file (o : op) (s : state) (name : string) :
  glob_match name = false → name ≠ metadata_file →
  refused s SysUnlink name = false →
  files s !! name = None →
  files (run_op o s).1 !! name = None.
Proof.
  intros Hg Hmeta Hu Hnone.
  destruct o as [key|key value|key| |]; simpl; try done.
  - assert (name ≠ _get_cache_path key) as Hp.
    { intros ->. unfold _get_cache_path in Hg.
      by rewrite glob_match_cache_key in Hg. }
    assert (files (get key s).1 !! name = None) as H.
    { destruct (files s !! _get_cache_path key) as [f|] eqn:E.
      2: { by rewrite get_missing. }
      destruct (refused s SysOpenRead (_get_cache_path key)) eqn:Hr;
        [|destruct (pickle_load (content f)) as [v|] eqn:Hl].
      - rewrite (get_unreadable key s f) by auto. simpl. unfold discarded.
        destruct (refused s SysUnlink (_get_cache_path key)); [done|]. simpl.
        by rewrite lookup_delete_ne.
      - rewrite (get_hit key s f v) by auto. simpl. by rewrite saved_files_ne.
      - rewrite (get_unreadable key s f) by auto. simpl. unfold discarded.
        destruct (refused s SysUnlink (_get_cache_path key)); [done|]. simpl.
        by rewrite lookup_delete_ne. }
    unfold bind. by destruct (get key s) as [s' [r|]].
  - assert (name ≠ _get_cache_path key) as Hp.
    { intros ->. unfold _get_cache_path in Hg.
      by rewrite glob_match_cache_key in Hg. }
    destruct (put_cases key value s)
      as [(s' & -> & _ & _ & Hframe & Htemp)
         |[(_ & s' & data & _ & -> & _ & _ & Hframe & _ & Htemp)
          |(data & st & _ & -> & Hfiles & _)]].
    1,2: simpl;
      (destruct (decide (name = with_suffix ".tmp" (_get_cache_path key))) as [->|Hne];
       [by apply Htemp|by rewrite Hframe]).
    destruct (cleanup_frame st) as (s' & -> & _ & _ & _ & _ & Hf).
    simpl. destruct (Hf name) as [[E _]|(_ & _ & E & _)]; [|done].
    rewrite E, Hfiles by done. unfold stored. rewrite saved_files_ne by done. simpl.
    rewrite lookup_insert_ne by done.
    destruct (decide (name = with_suffix ".tmp" (_get_cache_path key))) as [->|Hne].
    + apply lookup_delete_eq.
    + by rewrite lookup_delete_ne.
  - destruct (clear_frame s) as (s' & -> & Hf). simpl.
    destruct (Hf name) as [E|[[G _]|[E _]]]; [by rewrite E|congruence|done].
Qed.

(** X15. A run of public calls leaves no file behind that is neither an
    entry file nor the index file: a name of that kind which was free
    before the run, a temporary name [embedding_*.tmp] for instance, is
    free after it, provided the system does not refuse to delete a file of
    that name. *)
Theorem no_stray_file_is_left (calls : list (Z * op)) (s : state) (name : string) :
  glob_match name = false → name ≠ metadata_file →
  refused s SysUnlink name = false →
  files s !! name = None →
  files (run calls s) !! name = None.
Proof.
  intros Hg Hmeta. revert s.
  induction calls as [|c calls IH]; intros s Hu Hnone; [done|].
  simpl. apply IH.
  - by rewrite step_refused.
  - unfold step. by apply run_op_no_new_file.
Qed.

(** ** [clear] *)

(** X16. When the system refuses no deletion of an entry file, [clear]
    empties the cache: no file matching [embedding_*.pkl] is left,
    [self.metadata] is empty and, if the index file can be written, it
    holds the pickle of the empty index; afterwards [get_cache_info] counts
    no file and [find] answers false for every key. *)
Theorem clear_empties_the_cache (s : state) :
  (∀ m : gmap string file, scandir m ≡ₚ map_to_list m) →
  (∀ name, glob_match name = true → refused s SysUnlink name = false) →
  ∃ s', clear s = (s', Return tt) ∧
        (∀ name, glob_match name = true → files s' !! name = None) ∧
        metadata s' = ∅ ∧
        (refused s SysOpenWrite metadata_file = false →
         files s' !! metadata_file = Some (File (index_dump ∅) (clock s))) ∧
        (∃ info, get_cache_info s' = (s', Return info) ∧ info_files info = 0%nat) ∧
        (∀ key : K, find key s' = (s', Return false)).
Proof. apply clear_empties. Qed.

(** ** [get_cache_info] *)

Lemma length_filter_perm (g : string * file → bool) (l l' : list (string * file)) :
  l ≡ₚ l' → length (List.filter g l) = length (List.filter g l').
Proof.
  induction 1 as [|x l l' _ IH|x y l|l1 l2 l3 _ IH1 _ IH2]; cbn [List.filter].
  - reflexivity.
  - destruct (g x); [|exact IH]. simpl. by rewrite IH.
  - by destruct (g x), (g y).
  - congruence.
Qed.

(** X17. [get_cache_info] changes nothing and describes the entry files of
    the directory, in whatever order the directory is enumerated: it counts
    the files whose names match [embedding_*.pkl], so neither the index
    file nor a temporary file, and reports the bytes they take in MiB and
    in GiB; the count is zero exactly when the directory has no entry
    file. *)
Theorem get_cache_info_describes_the_entries (s : state) :
  (∀ m : gmap string file, scandir m ≡ₚ map_to_list m) →
  ∃ info, get_cache_info s = (s, Return info) ∧
          info_files info
          = length (List.filter (λ nf, glob_match nf.1) (map_to_list (files s))) ∧
          (size_mb info == inject_Z (entries_size (files s)) / inject_Z (1024 * 1024))%Q ∧
          (size_gb info
           == inject_Z (entries_size (files s)) / inject_Z (1024 * 1024 * 1024))%Q ∧
          (info_files info = 0%nat ↔
           ∀ name, glob_match name = true → files s !! name = None).
Proof.
  intros Hscan. rewrite get_cache_info_eq. eexists. split; [done|]. simpl.
  rewrite (entries_size_scandir _ Hscan).
  rewrite (length_filter_perm _ _ _ (Hscan (files s))).
  split; [done|]. split; [done|]. split; [done|].
  split.
  - intros Hzero name Hg. apply length_zero_iff_nil in Hzero.
    destruct (files s !! name) as [f|] eqn:E; [|done].
    assert ((name, f) ∈ List.filter (λ nf, glob_match nf.1) (map_to_list (files s))) as Hin.
    { apply list_elem_of_In, filter_In. rewrite <- list_elem_of_In.
      by rewrite elem_of_map_to_list. }
    rewrite Hzero in Hin. by apply elem_of_nil in Hin.
  - intros Hnone.
    destruct (List.filter _ _) as [|[name f] l] eqn:El; [done|].
    assert ((name, f) ∈ List.filter (λ nf, glob_match nf.1) (map_to_list (files s))) as Hin.
    { rewrite El. apply list_elem_of_here. }
    apply list_elem_of_In, filter_In in Hin as [Hin%list_elem_of_In Hg].
    apply elem_of_map_to_list in Hin. simpl in Hg.
    by rewrite (Hnone name Hg) in Hin.
Qed.

(** ** The index file follows [self.metadata] *)

Lemma synced_saved s :
  refused s SysOpenWrite metadata_file = false → synced (saved s).
Proof.
  intros Hw. exists (clock s). rewrite saved_metadata. unfold saved.
  rewrite Hw. simpl. apply lookup_insert_eq.
Qed.

Lemma cleanup_synced s :
  refused s SysOpenWrite metadata_file = false →
  synced s → synced (_cleanup_old_files s).1.
Proof.
  intros Hw Hs.
  unfold _cleanup_old_files, glob, get_metadata, get_max_size_bytes.
  unfold try_except, bind at 1 2 3.
  rewrite scan_fold. simpl.
  destruct (max_size_bytes s <? _); [|done].
  set (found := List.filter _ _).
  set (l := sort_by_time _).
  destruct (evict_frame (sum_sizes found) (inject_Z (max_size_bytes s) * 0.8) l 0 s)
    as (s1 & r & He & _ & Hr & _).
  rewrite (bind_return _ _ _ _ _ He). rewrite save_metadata_eq. simpl.
  apply synced_saved. by rewrite Hr.
Qed.

(** X18. While the index file can be written, the public calls keep it in
    step with [self.metadata]: if the file holds the pickle of the index
    before a [put], a [clear], a [find], a [get_cache_info], a [get] that
    returns a value or a [get] of a key without entry file, it holds the
    pickle of the index after the call. *)
Theorem index_file_follows_the_index (s : state) :
  refused s SysOpenWrite metadata_file = false →
  synced s →
  (∀ (key : K) (value : V), synced (put key value s).1) ∧
  synced (clear s).1 ∧
  (∀ key : K, synced (find key s).1) ∧
  synced (get_cache_info (K:=K) s).1 ∧
  (∀ (key : K) v, (get key s).2 = Return (Some v) → synced (get key s).1) ∧
  (∀ key : K, files s !! _get_cache_path key = None → synced (get key s).1).
Proof.
  intros Hw Hs. split; [|split; [|split; [|split; [|split]]]].
  - intros key value.
    destruct (put_cases key value s)
      as [(s' & -> & Hm & _ & Hf & _)
         |[(_ & s' & data & _ & -> & Hm & _ & Hf & _)
          |(data & st & _ & -> & Hfiles & Hmeta & _ & Href & _)]].
    + simpl. destruct Hs as [t Ht]. exists t. rewrite Hm, Hf; [done|].
      intros E. symmetry in E. by apply temp_path_ne_metadata_file in E.
    + simpl. destruct Hs as [t Ht]. exists t. rewrite Hm, Hf; [done| |].
      * intros E. symmetry in E. by apply temp_path_ne_metadata_file in E.
      * intros E. symmetry in E. by apply cache_path_ne_metadata_file in E.
    + apply cleanup_synced; [by rewrite Href, stored_refused|].
      assert (synced (stored key data s)) as [t Ht]
        by (unfold stored; by apply synced_saved).
      exists t. by rewrite Hfiles, Hmeta.
  - rewrite clear_eq. set (found := List.filter _ _).
    destruct (unlink_all_frame found s) as (s1 & o & -> & Hm & _ & Hr & _ & Hf).
    destruct o as [[]|]; simpl.
    + apply synced_saved. simpl. by rewrite Hr.
    + destruct Hs as [t Ht]. exists t. rewrite Hm.
      destruct (Hf metadata_file) as [->|(Hin & _)]; [done|].
      apply glob_names_match in Hin. by rewrite glob_match_metadata_file in Hin.
  - done.
  - done.
  - intros key v Hv.
    destruct (files s !! _get_cache_path key) as [f|] eqn:E.
    2: { by rewrite get_missing in Hv. }
    destruct (refused s SysOpenRead (_get_cache_path key)) eqn:Hr.
    { by rewrite (get_unreadable key s f) in Hv by auto. }
    destruct (pickle_load (content f)) as [v'|] eqn:Hl.
    2: { by rewrite (get_unreadable key s f) in Hv by auto. }
    rewrite (get_hit key s f v') by auto. simpl. by apply synced_saved.
  - intros key E. by rewrite get_missing.
Qed.

End Properties.

(** * The theorems at work on the demonstration platform *)

Lemma get_corrupt_leaves_index_file_witness :
  ∃ s', get "a" (Demo.damaged Demo.allow_all) = (s', Return None) ∧
        files s' !! _get_cache_path "a" = None ∧
        metadata s' = delete (_get_cache_path "a") (metadata (Demo.damaged Demo.allow_all)) ∧
        files s' !! metadata_file = files (Demo.damaged Demo.allow_all) !! metadata_file ∧
        trace s' = trace (Demo.damaged Demo.allow_all) ++ [EvUnlink (_get_cache_path "a")].
Proof.
  apply (get_corrupt_leaves_index_file "a" (Demo.damaged Demo.allow_all)
           (File Demo.garbage 10)); reflexivity.
Defined.

Lemma find_true_does_not_promise_a_value_witness :
  let s := Demo.damaged Demo.allow_all in
  find "a" s = (s, Return true) ∧
  ∃ s', get "a" s = (s', Return None) ∧
        (refused s SysUnlink (_get_cache_path "a") = false →
         find "a" s' = (s', Return false)) ∧
        (refused s SysUnlink (_get_cache_path "a") = true →
         s' = s ∧ find "a" s' = (s', Return true)).
Proof.
  apply (find_true_does_not_promise_a_value "a" (Demo.damaged Demo.allow_all)
           (File Demo.garbage 10)); reflexivity.
Defined.

(** Where the system refuses the deletion, a damaged entry outlives the
    [get] that found it: [find] answers true, [get] answers [None], and
    [find] answers true again. *)
Lemma find_stays_true_when_the_deletion_is_refused :
  let s := Demo.damaged (Demo.refuse SysUnlink "embedding_a.pkl") in
  files s !! _get_cache_path "a" = Some (File Demo.garbage 10) ∧
  pickle_load (V:=Demo.value) Demo.garbage = None ∧
  find "a" s = (s, Return true) ∧
  get "a" s = (s, Return None) ∧
  find "a" (get "a" s).1 = ((get "a" s).1, Return true).
Proof.
  intros s.
  destruct (get_corrupt_deletion_refused "a" s (File Demo.garbage 10)) as [Hget Hfind];
    try reflexivity.
  rewrite Hget. repeat split; done.
Qed.

Lemma put_rewrites_the_entry_when_the_rename_is_refused_witness :
  let s := Demo.damaged (Demo.refuse_also SysCopy "embedding_b.pkl"
                           (Demo.refuse SysRename "embedding_b.pkl")) in
  ∃ s', put "b" (Some [Byte.x2a]) s = (s', Return tt) ∧
        metadata s' = metadata s ∧
        files s' !! metadata_file = files s !! metadata_file ∧
        files s' !! _get_cache_path "b"
        = Some (File (if refused s SysCopy (_get_cache_path "b")
                      then copy_part (Demo.pickled [Byte.x2a])
                      else Demo.pickled [Byte.x2a]) (clock s)) ∧
        (refused s SysUnlink (with_suffix ".tmp" (_get_cache_path "b")) = false →
         files s' !! with_suffix ".tmp" (_get_cache_path "b") = None) ∧
        (refused s SysUnlink (with_suffix ".tmp" (_get_cache_path "b")) = true →
         files s' !! with_suffix ".tmp" (_get_cache_path "b")
         = Some (File (Demo.pickled [Byte.x2a]) (clock s))).
Proof.
  apply (put_rewrites_the_entry_when_the_rename_is_refused "b" (Some [Byte.x2a])
           (Demo.pickled [Byte.x2a])
           (Demo.damaged (Demo.refuse_also SysCopy "embedding_b.pkl"
                            (Demo.refuse SysRename "embedding_b.pkl"))));
    try reflexivity.
  left. reflexivity.
Defined.

(** The entry of ["b"] holds a sound pickle that [get] returns. A [put]
    whose rename is refused and whose copy fails leaves the entry file
    empty under the record of before; the next [get] finds it damaged. *)
Example failed_put_loses_the_entry :
  let s := Demo.damaged (Demo.refuse_also SysCopy "embedding_b.pkl"
                           (Demo.refuse SysRename "embedding_b.pkl")) in
  let s' := (put "b" (Some [Byte.x2a]) s).1 in
  files s !! "embedding_b.pkl" = Some (File (Demo.pickled [Byte.x07]) 20) ∧
  (get "b" s).2 = Return (Some (Some [Byte.x07])) ∧
  files s' !! "embedding_b.pkl" = Some (File [] 100) ∧
  metadata s' !! "embedding_b.pkl" = Some 20 ∧
  files s' !! "embedding_b.tmp" = None ∧
  (get "b" s').2 = Return None ∧
  trace s' = [EvWrite "embedding_b.tmp"; EvWrite "embedding_b.pkl";
              EvUnlink "embedding_b.tmp"].
Proof. vm_compute. repeat split. Qed.

(** When the copy goes through and the temporary file cannot be deleted,
    the [put] has failed too: the entry file holds the new pickle, the
    record and the index file are those of before, and the temporary file
    stays. *)
Example failed_put_replaces_the_entry :
  let s := Demo.damaged (Demo.refuse_also SysUnlink "embedding_b.tmp"
                           (Demo.refuse SysRename "embedding_b.pkl")) in
  let s' := (put "b" (Some [Byte.x2a]) s).1 in
  files s' !! "embedding_b.pkl" = Some (File (Demo.pickled [Byte.x2a]) 100) ∧
  metadata s' !! "embedding_b.pkl" = Some 20 ∧
  files s' !! "metadata.pkl" = files s !! "metadata.pkl" ∧
  files s' !! "embedding_b.tmp" = Some (File (Demo.pickled [Byte.x2a]) 100).
Proof. vm_compute. repeat split. Qed.

(** When the rename is refused and nothing else is, the [put] goes through
    by the copy. *)
Example put_by_copy :
  let s := Demo.damaged (Demo.refuse SysRename "embedding_b.pkl") in
  let s' := (put "b" (Some [Byte.x2a]) s).1 in
  files s' !! "embedding_b.pkl" = Some (File (Demo.pickled [Byte.x2a]) 100) ∧
  metadata s' !! "embedding_b.pkl" = Some 100 ∧
  files s' !! "embedding_b.tmp" = None ∧
  trace s' = [EvWrite "embedding_b.tmp"; EvWrite "embedding_b.pkl";
              EvUnlink "embedding_b.tmp"; EvWrite "metadata.pkl"].
Proof. vm_compute. repeat split. Qed.

(** A [put] that cannot pickle its value leaves the entry, its record and
    the index file as they were and deletes the temporary file. *)
Example failed_dump_changes_nothing :
  let s := Demo.damaged Demo.allow_all in
  let s' := (put "b" None s).1 in
  files s' !! "embedding_b.pkl" = files s !! "embedding_b.pkl" ∧
  files s' !! "metadata.pkl" = files s !! "metadata.pkl" ∧
  files s' !! "embedding_b.tmp" = None ∧
  metadata s' !! "embedding_b.pkl" = Some 20 ∧
  trace s' = [EvWrite "embedding_b.tmp"; EvUnlink "embedding_b.tmp"].
Proof. vm_compute. repeat split. Qed.

(** An index file that holds the pickle of a list: [_load_metadata] hands
    the list back, and so does the constructor. *)
Lemma load_metadata_returns_a_list :
  let s := Demo.foreign Demo.allow_all in
  files s !! metadata_file = Some (File [Byte.x5d; Byte.x2e] 20) ∧
  index_load (K:=string) (V:=Demo.value) [Byte.x5d; Byte.x2e] = Some (PyOther "list") ∧
  _load_metadata (K:=string) (V:=Demo.value) s = (s, Return (PyOther "list")) ∧
  (__init__ (K:=string) (V:=Demo.value) 50 s).2 = Return (PyOther "list").
Proof. vm_compute. repeat split. Qed.

(** The constructor on a directory whose index file is cut short, and with
    a limit that is not a finite number. *)
Example init_examples :
  let s := State (<["metadata.pkl" := File [Byte.x65] 20]> ∅) ∅ 0 100 Demo.allow_all [] in
  (__init__ (K:=string) (V:=Demo.value) 50 s).2 = Return (PyIndex ∅) ∧
  max_size_bytes (__init__ (K:=string) (V:=Demo.value) 50 s).1 = 53687091200 ∧
  (__init__ (K:=string) (V:=Demo.value) (inject_Z (10 ^ 300)) s).2 = Raise.
Proof. vm_compute. repeat split. Qed.


Lemma demo_scandir : ∀ m : gmap string file, scandir m ≡ₚ map_to_list m.
Proof. intros m. reflexivity. Defined.

Lemma clear_gives_up_at_first_failure_witness :
  let s := Demo.damaged (Demo.refuse SysUnlink "embedding_a.pkl") in
  ∃ s', clear s = (s', Return tt) ∧
        metadata s' = metadata s ∧
        files s' !! "embedding_a.pkl" = Some (File Demo.garbage 10) ∧
        files s' !! metadata_file = files s !! metadata_file ∧
        ∃ names, trace s' = trace s ++ (EvUnlink <$> names).
Proof.
  apply (clear_gives_up_at_first_failure
           (Demo.damaged (Demo.refuse SysUnlink "embedding_a.pkl"))
           "embedding_a.pkl" (File Demo.garbage 10) demo_scandir);
    reflexivity.
Defined.

(** With the deletion of the first entry refused, [clear] deletes nothing
    at all: the second entry, which could be deleted, stays, and so do both
    records. *)
Example clear_leaves_the_later_files :
  let s := Demo.damaged (Demo.refuse SysUnlink "embedding_a.pkl") in
  (clear s).2 = Return tt ∧
  files (clear s).1 = files s ∧
  metadata (clear s).1 = metadata s ∧
  trace (clear s).1 = [].
Proof. vm_compute. repeat split. Qed.

Lemma cleanup_old_files_spec_witness :
  let s := Demo.full Demo.allow_all in
  let found := List.filter (λ nf, glob_match nf.1) (scandir (files s)) in
  let total_size := sum_sizes found in
  let limit := max_size_bytes s in
  (∀ name f, (name, f) ∈ found ↔ files s !! name = Some f ∧ glob_match name = true) ∧
  (total_size ≤ limit → _cleanup_old_files s = (s, Return tt)) ∧
  (limit < total_size →
   ∃ (sorted : list entry) (n : nat) (s' : state),
     sorted ≡ₚ entry_of (metadata s) <$> found ∧
     StronglySorted (λ a b, entry_time a ≤ entry_time b) sorted ∧
     (∀ k, (k < n)%nat →
        ¬ (inject_Z (total_size - freed (refused s) (take k sorted))
           <= inject_Z limit * 0.8)%Q) ∧
     (n = length sorted ∨
      (inject_Z (total_size - freed (refused s) (take n sorted))
       <= inject_Z limit * 0.8)%Q) ∧
     _cleanup_old_files s = (s', Return tt) ∧
     let deleted := deleted_names (refused s) (take n sorted) in
     (∀ name, name ≠ metadata_file →
        files s' !! name
        = if bool_decide (name ∈ deleted) then None else files s !! name) ∧
     (∀ name,
        metadata s' !! name
        = if bool_decide (name ∈ deleted) then None else metadata s !! name) ∧
     (refused s SysOpenWrite metadata_file = false →
        files s' !! metadata_file
        = Some (File (index_dump (metadata s')) (clock s))) ∧
     trace s'
     = trace s ++ (EvUnlink <$> deleted)
       ++ (if refused s SysOpenWrite metadata_file then []
           else [EvWrite metadata_file])).
Proof.
  exact (cleanup_old_files_spec (Demo.full Demo.allow_all) demo_scandir eq_refl).
Defined.

(** Four bytes under a limit of three: the pass deletes the older entry,
    which brings the total to two bytes, under the target of 2.4, drops its
    record and writes the index. *)
Example cleanup_on_a_full_directory :
  let s' := (_cleanup_old_files (Demo.full Demo.allow_all)).1 in
  files s' !! "embedding_a.pkl" = None ∧
  files s' !! "embedding_b.pkl" = Some (File (Demo.pickled [Byte.x07]) 20) ∧
  metadata s' = <["embedding_b.pkl" := 20]> ∅ ∧
  trace s' = [EvUnlink "embedding_a.pkl"; EvWrite "metadata.pkl"].
Proof. vm_compute. repeat split. Qed.

Lemma record_stamps_never_decrease_witness :
  let s := Demo.damaged Demo.allow_all in
  let calls := [(110, OpPut "c" (Some [Byte.x01])); (120, OpGet "b"); (130, OpGet "z")] in
  (∀ name r r',
     metadata s !! name = Some r →
     metadata (run calls s) !! name = Some r' →
     r ≤ r') ∧
  (∀ calls1 calls2 name r r',
     calls = calls1 ++ calls2 →
     metadata (run calls1 s) !! name = Some r →
     metadata (run calls s) !! name = Some r' →
     r ≤ r') ∧
  (∀ (key : string) f v,
     files s !! _get_cache_path key = Some f →
     refused s SysOpenRead (_get_cache_path key) = false →
     pickle_load (content f) = Some v →
     (get key s).2 = Return (Some v) ∧
     metadata (get key s).1 !! _get_cache_path key = Some (clock s)) ∧
  (∀ (key : string) v,
     (get key s).2 = Return (Some v) →
     metadata (get key s).1 !! _get_cache_path key = Some (clock s)) ∧
  (∀ (key : string) value data,
     refused s SysOpenWrite (with_suffix ".tmp" (_get_cache_path key)) = false →
     pickle_dump value = Dumped data →
     move_goes_through (with_suffix ".tmp" (_get_cache_path key))
       (_get_cache_path key) s = true →
     ∃ st, put key value s = _cleanup_old_files st ∧
           metadata st = <[_get_cache_path key := clock s]> (metadata s) ∧
           (metadata (put key value s).1 !! _get_cache_path key = Some (clock s) ∨
            metadata (put key value s).1 !! _get_cache_path key = None)).
Proof.
  apply (record_stamps_never_decrease (Demo.damaged Demo.allow_all)
           [(110, OpPut "c" (Some [Byte.x01])); (120, OpGet "b"); (130, OpGet "z")]).
  - apply (bool_decide_unpack _). vm_compute. exact I.
  - repeat constructor; simpl; lia.
Defined.

(** A [put], a [get] and a [get] that misses, at times 110, 120 and 130:
    the record of ["b"] goes from 20 to 120, the record of ["c"] is made
    at 110, and the record of ["a"] stays at 10. *)
Example stamps_along_a_run :
  let s := run [(110, OpPut "c" (Some [Byte.x01])); (120, OpGet "b"); (130, OpGet "z")]
             (Demo.damaged Demo.allow_all) in
  metadata s !! "embedding_a.pkl" = Some 10 ∧
  metadata s !! "embedding_b.pkl" = Some 120 ∧
  metadata s !! "embedding_c.pkl" = Some 110.
Proof. vm_compute. repeat split. Qed.

Lemma clear_touches_entry_files_only_witness :
  let s := Demo.damaged Demo.allow_all in
  ∃ s', clear s = (s', Return tt) ∧
    (∀ name,
       files s' !! name = files s !! name ∨
       (glob_match name = true ∧ files s' !! name = None) ∨
       (name = metadata_file ∧
        files s' !! name = Some (File (index_dump ∅) (clock s)))) ∧
    (∀ h : string,
       files s' !! ("embedding_" +:+ h +:+ ".tmp")
       = files s !! ("embedding_" +:+ h +:+ ".tmp")) ∧
    (∀ key : string,
       files s' !! with_suffix ".tmp" (_get_cache_path key)
       = files s !! with_suffix ".tmp" (_get_cache_path key)) ∧
    (is_Some (files s !! metadata_file) → is_Some (files s' !! metadata_file)) ∧
    ((∀ name, glob_match name = true → refused s SysUnlink name = false) →
     refused s SysOpenWrite metadata_file = false →
     files s' !! metadata_file = Some (File (index_dump ∅) (clock s))).
Proof.
  exact (clear_touches_entry_files_only (Demo.damaged Demo.allow_all) demo_scandir).
Defined.

(** A limit of 1000 bytes and four entries of 300 bytes put at times 110
    to 140: the fourth [put] brings the total to 1200 bytes, and its
    eviction pass deletes the two oldest entries, which leaves 600 bytes,
    under the target of 800. *)
Example four_puts_under_a_limit_of_1000 :
  let s := run [(110, OpPut "k1" (Some Demo.payload));
                (120, OpPut "k2" (Some Demo.payload));
                (130, OpPut "k3" (Some Demo.payload));
                (140, OpPut "k4" (Some Demo.payload))]
             (Demo.fresh 1000 Demo.allow_all) in
  (map_to_list (files s)).*1 = ["metadata.pkl"; "embedding_k3.pkl"; "embedding_k4.pkl"] ∧
  metadata s = <["embedding_k3.pkl" := 130]> (<["embedding_k4.pkl" := 140]> ∅) ∧
  (get "k4" s).2 = Return (Some (Some Demo.payload)) ∧
  (get "k1" s).2 = Return None.
Proof. vm_compute. repeat split. Qed.

Lemma saved_index_survives_a_restart_witness :
  let s := Demo.damaged Demo.allow_all in
  let s0 := State (files (_save_metadata s).1) ∅ 0 200 Demo.allow_all [] in
  ∃ s1, __init__ 50 s0 = (s1, Return (PyIndex (metadata s))) ∧
        metadata s1 = metadata s ∧
        files s1 = files s0.
Proof.
  apply (saved_index_survives_a_restart (Demo.damaged Demo.allow_all)
           (State (files (_save_metadata (Demo.damaged Demo.allow_all)).1) ∅ 0 200
              Demo.allow_all []) 50);
    reflexivity.
Defined.

(** The index of two records, as it is written and as it is read back. *)
Example index_round_trip :
  Demo.dump_index Demo.records
  = String.list_byte_of_string "embedding_a.pkl" ++ [Byte.x00; Byte.x0a]
    ++ String.list_byte_of_string "embedding_b.pkl" ++ [Byte.x00; Byte.x14] ∧
  Demo.load_index (Demo.dump_index Demo.records) = Some (PyIndex Demo.records) ∧
  Demo.load_index [Byte.x65] = None.
Proof. vm_compute. repeat split. Qed.

Lemma get_after_find_false_witness :
  get "z" (Demo.damaged Demo.allow_all) = (Demo.damaged Demo.allow_all, Return None).
Proof. apply (get_after_find_false "z" (Demo.damaged Demo.allow_all)). reflexivity. Defined.

Lemma get_hit_keeps_the_entry_witness :
  let s := Demo.damaged Demo.allow_all in
  let s1 := (get "b" s).1 in
  (∀ name, name ≠ metadata_file → files s1 !! name = files s !! name) ∧
  metadata s1 = <[_get_cache_path "b" := clock s]> (metadata s) ∧
  (refused s SysOpenWrite metadata_file = false →
   files s1 !! metadata_file = Some (File (index_dump (metadata s1)) (clock s))) ∧
  (get "b" s1).2 = Return (Some (Some [Byte.x07])).
Proof.
  apply (get_hit_keeps_the_entry "b" (Demo.damaged Demo.allow_all) (Some [Byte.x07])).
  reflexivity.
Defined.

Lemma get_discards_an_entry_it_cannot_open_witness :
  let s := Demo.damaged (Demo.refuse SysOpenRead "embedding_b.pkl") in
  ∃ s', get "b" s = (s', Return None) ∧
        (refused s SysUnlink (_get_cache_path "b") = false →
         files s' !! _get_cache_path "b" = None ∧
         metadata s' !! _get_cache_path "b" = None ∧
         find "b" s' = (s', Return false)) ∧
        (refused s SysUnlink (_get_cache_path "b") = true →
         s' = s ∧ find "b" s' = (s', Return true)).
Proof.
  apply (get_discards_an_entry_it_cannot_open "b"
           (Demo.damaged (Demo.refuse SysOpenRead "embedding_b.pkl"))
           (File (Demo.pickled [Byte.x07]) 20) (Some [Byte.x07]));
    reflexivity.
Defined.

Lemma demo_indexed : indexed (Demo.damaged Demo.allow_all).
Proof.
  intros name Hg [f Hf]. unfold Demo.damaged, Demo.records in *. simpl in *.
  destruct (decide (name = "embedding_a.pkl")) as [->|Ha]; [by eexists|].
  destruct (decide (name = "embedding_b.pkl")) as [->|Hb]; [by eexists|].
  rewrite !lookup_insert_ne in Hf by done.
  destruct (decide (name = "metadata.pkl")) as [->|Hm]; [discriminate Hg|].
  by rewrite lookup_insert_ne in Hf.
Defined.

Lemma demo_backed : backed (Demo.damaged Demo.allow_all).
Proof.
  intros name [r Hr]. unfold Demo.damaged, Demo.records in *. simpl in *.
  destruct (decide (name = "embedding_a.pkl")) as [->|Ha]; [split; [done|by eexists]|].
  destruct (decide (name = "embedding_b.pkl")) as [->|Hb]; [split; [done|by eexists]|].
  by rewrite !lookup_insert_ne in Hr.
Defined.

Lemma every_entry_file_stays_indexed_witness :
  indexed (run [(110, OpPut "c" (Some [Byte.x01])); (120, OpGet "a"); (130, OpClear)]
             (Demo.damaged Demo.allow_all)).
Proof.
  exact (every_entry_file_stays_indexed
           [(110, OpPut "c" (Some [Byte.x01])); (120, OpGet "a"); (130, OpClear)]
           (Demo.damaged Demo.allow_all) demo_scandir (λ _ _, eq_refl) demo_indexed).
Defined.

Lemma every_record_stays_backed_witness :
  backed (run [(110, OpPut "c" (Some [Byte.x01])); (120, OpGet "a"); (130, OpClear)]
            (Demo.damaged Demo.allow_all)).
Proof.
  apply (every_record_stays_backed
           [(110, OpPut "c" (Some [Byte.x01])); (120, OpGet "a"); (130, OpClear)]
           (Demo.damaged Demo.allow_all) demo_scandir); [|exact demo_backed].
  right. reflexivity.
Defined.

Lemma eviction_brings_the_size_under_the_limit_witness :
  let s := Demo.full Demo.allow_all in
  let s' := (_cleanup_old_files s).1 in
  entries_size (files s') ≤ entries_size (files s) ∧
  (0 ≤ max_size_bytes s →
   (∀ name, glob_match name = true → refused s SysUnlink name = false) →
   entries_size (files s') ≤ max_size_bytes s ∧
   (max_size_bytes s < entries_size (files s) →
    5 * entries_size (files s') ≤ 4 * max_size_bytes s) ∧
   ∃ info, get_cache_info s' = (s', Return info) ∧
           (size_mb info == inject_Z (entries_size (files s')) / inject_Z (1024 * 1024))%Q).
Proof.
  exact (eviction_brings_the_size_under_the_limit (Demo.full Demo.allow_all) demo_scandir
           eq_refl).
Defined.

(** On the full directory the pass brings four bytes down to two. *)
Example sizes_around_a_pass :
  entries_size (files (Demo.full Demo.allow_all)) = 4 ∧
  entries_size (files (_cleanup_old_files (Demo.full Demo.allow_all)).1) = 2.
Proof. vm_compute. repeat split. Qed.

(** A [clear] that fails at the second entry has deleted the first one and
    kept its record. *)
Example failed_clear_leaves_a_record_without_file :
  let s := (clear (Demo.damaged (Demo.refuse SysUnlink "embedding_b.pkl"))).1 in
  files s !! "embedding_a.pkl" = None ∧
  metadata s !! "embedding_a.pkl" = Some 10.
Proof. vm_compute. repeat split. Qed.

Lemma eviction_deletes_the_oldest_witness :
  recency (Demo.full Demo.allow_all) "embedding_a.pkl" (File Demo.garbage 10)
  ≤ recency (Demo.full Demo.allow_all) "embedding_b.pkl" (File (Demo.pickled [Byte.x07]) 20).
Proof.
  apply (eviction_deletes_the_oldest (Demo.full Demo.allow_all)
           "embedding_a.pkl" "embedding_b.pkl"
           (File Demo.garbage 10) (File (Demo.pickled [Byte.x07]) 20) demo_scandir);
    try reflexivity.
  vm_compute. eauto.
Defined.



Lemma put_within_the_limit_evicts_nothing_witness :
  let s := Demo.damaged Demo.allow_all in
  ∃ s', put "c" (Some [Byte.x01]) s = (s', Return tt) ∧
        (∀ name, glob_match name = true → name ≠ _get_cache_path "c" →
                 files s' !! name = files s !! name) ∧
        (∀ name, name ≠ _get_cache_path "c" →
                 metadata s' !! name = metadata s !! name) ∧
        files s' !! _get_cache_path "c" = Some (File (Demo.pickled [Byte.x01]) (clock s)) ∧
        metadata s' !! _get_cache_path "c" = Some (clock s) ∧
        ∃ log_end,
          trace s' = trace s
                     ++ [EvWrite (with_suffix ".tmp" (_get_cache_path "c"));
                         EvRename (with_suffix ".tmp" (_get_cache_path "c"))
                                  (_get_cache_path "c")]
                     ++ log_end ∧
          (log_end = [] ∨ log_end = [EvWrite metadata_file]).
Proof.
  apply (put_within_the_limit_evicts_nothing "c" (Some [Byte.x01])
           (Demo.pickled [Byte.x01]) (Demo.damaged Demo.allow_all) demo_scandir);
    try reflexivity.
  by vm_compute.
Defined.

Lemma no_stray_file_is_left_witness :
  files (run [(110, OpPut "c" None); (120, OpPut "c" (Some [Byte.x01])); (130, OpClear)]
           (Demo.damaged Demo.allow_all)) !! "embedding_c.tmp" = None.
Proof.
  apply (no_stray_file_is_left
           [(110, OpPut "c" None); (120, OpPut "c" (Some [Byte.x01])); (130, OpClear)]
           (Demo.damaged Demo.allow_all) "embedding_c.tmp");
    [reflexivity|discriminate|reflexivity|reflexivity].
Defined.

Lemma clear_empties_the_cache_witness :
  let s := Demo.damaged Demo.allow_all in
  ∃ s', clear s = (s', Return tt) ∧
        (∀ name, glob_match name = true → files s' !! name = None) ∧
        metadata s' = ∅ ∧
        (refused s SysOpenWrite metadata_file = false →
         files s' !! metadata_file = Some (File (index_dump ∅) (clock s))) ∧
        (∃ info, get_cache_info s' = (s', Return info) ∧ info_files info = 0%nat) ∧
        (∀ key : string, find key s' = (s', Return false)).
Proof.
  apply (clear_empties_the_cache (Demo.damaged Demo.allow_all) demo_scandir).
  reflexivity.
Defined.

Lemma get_cache_info_describes_the_entries_witness :
  let s := Demo.damaged Demo.allow_all in
  ∃ info, get_cache_info s = (s, Return info) ∧
          info_files info
          = length (List.filter (λ nf, glob_match nf.1) (map_to_list (files s))) ∧
          (size_mb info == inject_Z (entries_size (files s)) / inject_Z (1024 * 1024))%Q ∧
          (size_gb info
           == inject_Z (entries_size (files s)) / inject_Z (1024 * 1024 * 1024))%Q ∧
          (info_files info = 0%nat ↔
           ∀ name, glob_match name = true → files s !! name = None).
Proof.
  exact (get_cache_info_describes_the_entries (Demo.damaged Demo.allow_all) demo_scandir).
Defined.

Lemma demo_synced : synced (_save_metadata (Demo.damaged Demo.allow_all)).1.
Proof. exists 100. reflexivity. Defined.

Lemma index_file_follows_the_index_witness :
  let s := (_save_metadata (Demo.damaged Demo.allow_all)).1 in
  (∀ (key : string) (value : Demo.value), synced (put key value s).1) ∧
  synced (clear s).1 ∧
  (∀ key : string, synced (find key s).1) ∧
  synced (get_cache_info (K:=string) s).1 ∧
  (∀ (key : string) v, (get key s).2 = Return (Some v) → synced (get key s).1) ∧
  (∀ key : string, files s !! _get_cache_path key = None → synced (get key s).1).
Proof.
  apply (index_file_follows_the_index (_save_metadata (Demo.damaged Demo.allow_all)).1).
  - reflexivity.
  - exact demo_synced.
Defined.
